(** * CMDB scheduler: the watch/timer event loop and its dispatch handler

    A shallow embedding of [server/scheduler/server.go],
    [server/scheduler/handler.go] and the watch-event model of
    [shared/storage/generic], followed by the properties of the
    scheduler that the specification states.

    Conventions.  Go code that mutates shared state is written in a small
    state monad over a [World]; a [panic], and a call that has not
    returned, are explicit outcomes.  The choice that Go's [select] makes
    among its ready cases belongs to the environment and is an input of
    the loop (a list of [Ready] items, one per iteration).  A [go]
    statement is recorded as an effect of the loop; the task it starts is
    run on its own by [run_task]. *)

From Stdlib Require Import ZArith List String Bool Arith Lia.
Import ListNotations.

Local Open Scope string_scope.
Local Open Scope list_scope.

(* ===================================================================== *)
(** ** Package [time] (the part of Go's library the scheduler calls) *)

Module time.

(** An instant, in nanoseconds since the Unix epoch. *)
Definition Time := Z.
(** A duration: an int64 count of nanoseconds. *)
Definition Duration := Z.

Definition Nanosecond : Duration := 1%Z.
Definition Second : Duration := (1000000000 * Nanosecond)%Z.
Definition Minute : Duration := (60 * Second)%Z.

Definition minDuration : Duration := (- 2 ^ 63)%Z.
Definition maxDuration : Duration := (2 ^ 63 - 1)%Z.

(** The zero [Time]: January 1, year 1, 00:00:00 UTC. *)
Definition zero : Time := (-62135596800 * Second)%Z.

Definition IsZero (t : Time) : bool := (t =? zero)%Z.

(** [t.Sub(u)]: the duration [t-u], saturated to the int64 range. *)
Definition Sub (t u : Time) : Duration :=
  let d := (t - u)%Z in
  if (d <? minDuration)%Z then minDuration
  else if (maxDuration <? d)%Z then maxDuration
  else d.

(** [t.Unix()]: seconds since the Unix epoch. *)
Definition Unix (t : Time) : Z := (t / Second)%Z.

End time.

(* ===================================================================== *)
(** ** Package [generic]: objects, watch events, the storage interface *)

Module generic.

(** Go's [error] interface, by its message. *)
Definition error := string.

(** Modelled from the spec: the concrete object types (machine, machine
    digest, discovered machines) are declared in another file of the
    package.
    One record carries the attributes of the [SortableObject] interface
    and the [State] of a discovered-machines record. *)
Record Object := {
  GUID : string;
  ObjKind : string;
  Name : string;
  Namespace : string;
  CreationTimestamp : time.Time;
  UpdatingTimestamp : option time.Time;
  IsDeleting : bool;
  State : string
}.

Definition SetState (o : Object) (st : string) : Object :=
  {| GUID := GUID o; ObjKind := ObjKind o; Name := Name o;
     Namespace := Namespace o; CreationTimestamp := CreationTimestamp o;
     UpdatingTimestamp := UpdatingTimestamp o; IsDeleting := IsDeleting o;
     State := st |}.

(** Modelled from the spec: the state constant the discovery sweep
    writes; its observed value is "Started". *)
Definition StartedState : string := "Started".

(** [type WatchEventType byte] *)
Definition WatchEventType := Z.

Definition CREATE : WatchEventType := Z.shiftl 1 0.
Definition UPDATE : WatchEventType := Z.shiftl 1 1.
Definition DELETE : WatchEventType := Z.shiftl 1 2.
Definition ERROR : WatchEventType := Z.shiftl 1 3.

Definition WatchEventTypeName : list (Z * string) :=
  [ (1, "CREATE"); (2, "UPDATE"); (4, "DELETE"); (8, "ERROR") ]%Z.

Fixpoint lookup (m : list (Z * string)) (k : Z) : option string :=
  match m with
  | [] => None
  | (k', v) :: m' => if (k =? k')%Z then Some v else lookup m' k
  end.

Definition WatchEventType_String (of_ : WatchEventType) : string :=
  match lookup WatchEventTypeName of_ with
  | Some v => v
  | None => "<invalid>"
  end.

Record WatchEvent := {
  Type_ : WatchEventType;
  Kind : string;
  Key : string;
  Value : list Byte.byte
}.

(** The two scope modes [Watch] is called with. *)
Inductive WatchMode := WatchOnKind | WatchOnName.

(** A [Watcher] value, by identity; the nil interface is [None]. *)
Definition Watcher := nat.

(** The [Storage] interface, over the state [S] of the backing store.
    A call returns what Go returns together with the store's next
    state. *)
Class Storage (S : Type) := {
  storage_Create : Object -> S -> option error * S;
  storage_Update : Object -> S -> option error * S;
  storage_Watch : Object -> WatchMode -> S ->
                  (option Watcher * option error) * S
}.

(** What the scheduler takes from code declared elsewhere: the
    object constructors and the error classifier of this package, and
    the libraries [encoding/json], [math/rand] and [cron]. *)
Class Externals := {
  NewMachine : Object;
  NewMachineDigest : Object;
  NewDiscoveredMachines : Object;
  IsInternalError : error -> bool;
  (** [json.Unmarshal(data, cv)]: the error, and [cv] as it is left. *)
  json_Unmarshal : list Byte.byte -> Object -> option error * Object;
  (** The generator of [math/rand]: seed, number of draws since the
      seed was set, bound. *)
  rand_draw : Z -> nat -> Z -> Z;
  (** [cron.Parse(exp)]; a schedule is its [Next] method. *)
  cron_Parse : string -> (time.Time -> time.Time) + error
}.

(** [func (in *WatchEvent) Unmarshal(cv Object) error] *)
Definition Unmarshal `{Externals} (in_ : WatchEvent) (cv : Object)
  : option error * Object :=
  json_Unmarshal (Value in_) cv.

End generic.

Import generic.

(* ===================================================================== *)
(** ** The world the scheduler runs in, and the monad of its code *)

Definition Chan := nat.
Definition Executor := nat.

(** The tasks a [go] statement of the loop starts. *)
Inductive Task :=
| GoCreateMachineDigestOnTime
| GoAutoDiscoveryOnTime
| GoRefreshMachineSnapshotOnEvent (event : WatchEvent)
| GoRefreshDicoveredMachinesOnEvent (event : WatchEvent).

(** What the code does to its collaborators, in the order it does it. *)
Inductive Effect :=
| LogInfo (msg : string)
| LogError (err : error)
| LogErrorf (format : string) (err : error)
| LogSync
| StorageCreate (obj : Object)
| StorageUpdate (obj : Object)
| StorageWatch (obj : Object) (mode : WatchMode)
| NotifyDigest (exec : Executor) (digest : Object)
| NotifyDiscoveredMachines (exec : Executor) (latest : Object)
| WatcherClose (w : Watcher)
| NewTimer (d : time.Duration)
| TimerReset (d : time.Duration)
| TimerStop
| Go (t : Task)
| ChanClose (c : Chan).

Record World (S : Type) := mkWorld {
  store : S;                       (* the shared backing store *)
  clock : nat -> time.Time;        (* what the n-th time.Now() returns *)
  nowCalls : nat;                  (* time.Now() calls so far *)
  randSeed : Z;                    (* math/rand: the seed last set *)
  randDraws : nat;                 (* math/rand: draws since then *)
  nextChan : Chan;                 (* the next channel make() returns *)
  closedChans : list Chan;         (* channels closed so far *)
  trace : list Effect              (* effects so far, oldest first *)
}.
Arguments mkWorld {S}.
Arguments store {S}.
Arguments clock {S}.
Arguments nowCalls {S}.
Arguments randSeed {S}.
Arguments randDraws {S}.
Arguments nextChan {S}.
Arguments closedChans {S}.
Arguments trace {S}.

Inductive Outcome (A : Type) :=
| Returned (a : A)
| Panicked (msg : string)
| Pending.                         (* the call has not returned *)
Arguments Returned {A}.
Arguments Panicked {A}.
Arguments Pending {A}.

Definition M (St A : Type) := St -> Outcome A * St.

Definition ret {St A} (a : A) : M St A := fun s => (Returned a, s).

Definition bind {St A B} (c : M St A) (k : A -> M St B) : M St B :=
  fun s =>
    match c s with
    | (Returned a, s') => k a s'
    | (Panicked msg, s') => (Panicked msg, s')
    | (Pending, s') => (Pending, s')
    end.

Definition panic {St A} (msg : string) : M St A := fun s => (Panicked msg, s).
Definition pending {St A} : M St A := fun s => (Pending, s).

Notation "x <- c ;; k" := (bind c (fun x => k))
  (at level 61, c at next level, right associativity).
Notation "c ;; k" := (bind c (fun _ => k))
  (at level 61, right associativity).

(** Go's [defer]: [d] runs when [body] returns or panics; a panic of
    [body] goes on after [d], a panic of [d] replaces it. *)
Definition defer {St A} (d : M St unit) (body : M St A) : M St A :=
  fun s =>
    match body s with
    | (Pending, s') => (Pending, s')
    | (r, s') =>
        match d s' with
        | (Returned _, s'') => (r, s'')
        | (Panicked msg, s'') => (Panicked msg, s'')
        | (Pending, s'') => (Pending, s'')
        end
    end.

Section Primitives.
Context {S : Type} `{Storage S} `{Externals}.

Definition emit (e : Effect) : M (World S) unit :=
  fun w => (Returned tt,
            mkWorld (store w) (clock w) (nowCalls w) (randSeed w)
                    (randDraws w) (nextChan w) (closedChans w)
                    (trace w ++ [e])).

(** [time.Now()] *)
Definition time_Now : M (World S) time.Time :=
  fun w => (Returned (clock w (nowCalls w)),
            mkWorld (store w) (clock w) (Datatypes.S (nowCalls w))
                    (randSeed w) (randDraws w) (nextChan w)
                    (closedChans w) (trace w)).

(** [rand.Seed(seed)] *)
Definition rand_Seed (seed : Z) : M (World S) unit :=
  fun w => (Returned tt,
            mkWorld (store w) (clock w) (nowCalls w) seed 0
                    (nextChan w) (closedChans w) (trace w)).

(** [rand.Intn(n)]: a number in [0,n); it panics if [n <= 0]. *)
Definition rand_Intn (n : Z) : M (World S) Z :=
  fun w =>
    if (n <=? 0)%Z then (Panicked "invalid argument to Intn", w)
    else (Returned (rand_draw (randSeed w) (randDraws w) n mod n)%Z,
          mkWorld (store w) (clock w) (nowCalls w) (randSeed w)
                  (Datatypes.S (randDraws w)) (nextChan w)
                  (closedChans w) (trace w)).

(** [make(chan struct{}, 1)] *)
Definition make_chan : M (World S) Chan :=
  fun w => (Returned (nextChan w),
            mkWorld (store w) (clock w) (nowCalls w) (randSeed w)
                    (randDraws w) (Datatypes.S (nextChan w))
                    (closedChans w) (trace w)).

(** [close(c)]: closing a closed channel panics. *)
Definition close_chan (c : Chan) : M (World S) unit :=
  fun w =>
    if existsb (Nat.eqb c) (closedChans w)
    then (Panicked "close of closed channel", w)
    else (Returned tt,
          mkWorld (store w) (clock w) (nowCalls w) (randSeed w)
                  (randDraws w) (nextChan w) (closedChans w ++ [c])
                  (trace w ++ [ChanClose c])).

Definition with_store {A} (e : Effect) (f : S -> A * S) : M (World S) A :=
  fun w =>
    let (a, s') := f (store w) in
    (Returned a,
     mkWorld s' (clock w) (nowCalls w) (randSeed w) (randDraws w)
             (nextChan w) (closedChans w) (trace w ++ [e])).

Definition Create (obj : Object) : M (World S) (option error) :=
  with_store (StorageCreate obj) (storage_Create obj).
Definition Update (obj : Object) : M (World S) (option error) :=
  with_store (StorageUpdate obj) (storage_Update obj).
Definition Watch (obj : Object) (mode : WatchMode)
  : M (World S) (option Watcher * option error) :=
  with_store (StorageWatch obj mode) (storage_Watch obj mode).

(** A method call on a [Watcher]; on the nil interface it panics. *)
Definition Watcher_Output (w : option Watcher) : M (World S) unit :=
  match w with
  | Some _ => ret tt
  | None => panic "invalid memory address or nil pointer dereference"
  end.
Definition Watcher_Close (w : option Watcher) : M (World S) unit :=
  match w with
  | Some x => emit (WatcherClose x)
  | None => panic "invalid memory address or nil pointer dereference"
  end.

(** [s[i]] on a slice. *)
Definition index {A} (s : list A) (i : Z) : M (World S) A :=
  if (i <? 0)%Z then panic "index out of range"
  else match nth_error s (Z.to_nat i) with
       | Some a => ret a
       | None => panic "index out of range"
       end.

End Primitives.

(* ===================================================================== *)
(** ** handler.go *)

(** [type Handler struct]: the executor pool.  The [storage] and [logger]
    fields refer to the shared store and log, which live in the [World]. *)
Record Handler := { executor : list Executor }.

Section HandlerCode.
Context {S : Type} `{Storage S} `{Externals}.

(** [func NewHandler(storage, logger) *Handler] *)
Definition NewHandler : Handler := {| executor := [] |}.

(** [func (in *Handler) RegisterExecutor(exec *executor.Executor)] *)
Definition RegisterExecutor (in_ : Handler) (exec : Executor) : Handler :=
  {| executor := executor in_ ++ [exec] |}.

(** [func (in *Handler) createMachineDigestOnTime()] *)
Definition createMachineDigestOnTime (in_ : Handler) : M (World S) unit :=
  defer (emit LogSync)
    (emit (LogInfo "Creating a new digest on schedule") ;;
     let digest := NewMachineDigest in
     err <- Create digest ;;
     match err with
     | Some e =>
         emit (LogErrorf "Could not create new machine digest due to: %v" e)
     | None => ret tt
     end).

(** The label [RETRY] of [autoDiscoveryOnTime] and the statement under
    it.  A pass through the label takes one unit of [fuel]; without
    fuel the call has not returned. *)
Fixpoint RETRY (fuel : nat) (latest : Object) (err : option error)
  : M (World S) unit :=
  match fuel with
  | O => pending
  | Datatypes.S fuel' =>
      match err with
      | Some e =>
          if negb (IsInternalError e) then
            err' <- Create latest ;;
            RETRY fuel' latest err'
          else
            emit (LogErrorf
                    "Could not mark auto-discovery as `STARTED` state: %v" e)
      | None => ret tt
      end
  end.

(** [func (in *Handler) autoDiscoveryOnTime()] *)
Definition autoDiscoveryOnTime (fuel : nat) (in_ : Handler)
  : M (World S) unit :=
  defer (emit LogSync)
    (emit (LogInfo "Auto-discovering new machines on preset zones...") ;;
     let latest := NewDiscoveredMachines in
     let latest := SetState latest StartedState in
     err <- Update latest ;;
     RETRY fuel latest err).

(** [func (in *Handler) refreshMachineSnapshotOnEvent(event)] *)
Definition refreshMachineSnapshotOnEvent (in_ : Handler)
  (event : WatchEvent) : M (World S) unit :=
  defer (emit LogSync)
    (emit (LogInfo "Notifying executor to refresh machine information") ;;
     let digest := NewMachineDigest in
     let (err, digest) := Unmarshal event digest in
     match err with
     | Some e => emit (LogError e)
     | None =>
         now <- time_Now ;;
         rand_Seed (time.Unix now) ;;
         i <- rand_Intn (Z.of_nat (List.length (executor in_))) ;;
         exec <- index (executor in_) i ;;
         emit (NotifyDigest exec digest)
     end).

(** [func (in *Handler) refreshDicoveredMachinesOnEvent(event)] *)
Definition refreshDicoveredMachinesOnEvent (in_ : Handler)
  (event : WatchEvent) : M (World S) unit :=
  defer (emit LogSync)
    (emit (LogInfo "Notifying executor to refresh machine information") ;;
     let latest := NewDiscoveredMachines in
     let (err, latest) := Unmarshal event latest in
     match err with
     | Some e => emit (LogError e)
     | None =>
         now <- time_Now ;;
         rand_Seed (time.Unix now) ;;
         i <- rand_Intn (Z.of_nat (List.length (executor in_))) ;;
         exec <- index (executor in_) i ;;
         emit (NotifyDiscoveredMachines exec latest)
     end).


End HandlerCode.

(* ===================================================================== *)
(** ** server.go *)

(** The reference a server holds to the shared store; the store's state
    is [store] of the [World]. *)
Inductive StorageRef := SharedStore.

(** [type Server struct] *)
Record Server := mkServer {
  closeCh : Chan;
  clzSubCh : list Chan;
  sche : time.Time -> time.Time;
  machineObserver : option Watcher;
  digestObserver : option Watcher;
  autoDiscObserver : option Watcher;
  storage : option StorageRef;
  Handler_ : option Handler
}.

Definition set_clzSubCh (v : list Chan) (in_ : Server) : Server :=
  mkServer (closeCh in_) v (sche in_) (machineObserver in_)
           (digestObserver in_) (autoDiscObserver in_) (storage in_)
           (Handler_ in_).
Definition set_machineObserver (v : option Watcher) (in_ : Server) : Server :=
  mkServer (closeCh in_) (clzSubCh in_) (sche in_) v
           (digestObserver in_) (autoDiscObserver in_) (storage in_)
           (Handler_ in_).
Definition set_digestObserver (v : option Watcher) (in_ : Server) : Server :=
  mkServer (closeCh in_) (clzSubCh in_) (sche in_) (machineObserver in_)
           v (autoDiscObserver in_) (storage in_) (Handler_ in_).
Definition set_autoDiscObserver (v : option Watcher) (in_ : Server) : Server :=
  mkServer (closeCh in_) (clzSubCh in_) (sche in_) (machineObserver in_)
           (digestObserver in_) v (storage in_) (Handler_ in_).

(** What one iteration of the loop's [select] receives. *)
Inductive Ready :=
| OnClose                              (* <-in.closeCh *)
| OnMachine (event : WatchEvent)       (* <-machineEventChan *)
| OnDigest (event : WatchEvent)        (* <-digestEventChan *)
| OnAutoDisc (event : WatchEvent)      (* <-autoDiscEventChan *)
| OnTimer.                             (* <-timer.C *)

(** How an iteration ends: [break LOOP], or on to the next one with the
    value of the local [revalidate]. *)
Inductive Ctl := Break | Continue (revalidate : bool).

Section ServerCode.
Context {S : Type} `{Storage S} `{Externals}.

Definition ServerSt : Type := Server * World S.

Definition liftW {A} (c : M (World S) A) : M ServerSt A :=
  fun st => let (r, w') := c (snd st) in (r, (fst st, w')).
Definition this : M ServerSt Server := fun st => (Returned (fst st), st).
Definition assign (f : Server -> Server) : M ServerSt unit :=
  fun st => (Returned tt, (f (fst st), snd st)).

(** [func NewServer(exp string)]: the server, or the parse error. *)
Definition NewServer (exp : string)
  : M (World S) (option Server * option error) :=
  match cron_Parse exp with
  | inr err => ret (None, Some err)
  | inl sche_ =>
      c <- make_chan ;;
      ret (Some (mkServer c [] sche_ None None None None None), None)
  end.

(** [func (in *Server) Prepare(storage, logger)] *)
Definition Prepare (in_ : Server) : Server :=
  mkServer (closeCh in_) (clzSubCh in_) (sche in_) (machineObserver in_)
           (digestObserver in_) (autoDiscObserver in_) (Some SharedStore)
           (Some NewHandler).

(** [func (in *Server) Subscribe() <-chan struct{}] *)
Definition Subscribe : M ServerSt Chan :=
  subscription <- liftW make_chan ;;
  in_ <- this ;;
  assign (set_clzSubCh (clzSubCh in_ ++ [subscription])) ;;
  ret subscription.

(** [func (in *Server) Stop()] *)
Definition Stop : M ServerSt unit :=
  in_ <- this ;;
  liftW (close_chan (closeCh in_)).

(** [in.storage.Watch(obj, mode)]; on a nil [in.storage] it panics. *)
Definition storage_of (in_ : Server) (obj : Object) (mode : WatchMode)
  : M (World S) (option Watcher * option error) :=
  match storage in_ with
  | Some SharedStore => Watch obj mode
  | None => panic "invalid memory address or nil pointer dereference"
  end.

(** One iteration of [select] in the loop of [Serve]. *)
Definition select (in_ : Server) (revalidate : bool) (r : Ready)
  : M (World S) Ctl :=
  match r with
  | OnClose => ret Break
  | OnMachine event =>
      if (Type_ event =? DELETE)%Z then
        (* go in.Handler.gcMachineOnEvent(event) *)
        ret (Continue revalidate)
      else if (Type_ event =? ERROR)%Z then ret Break
      else ret (Continue revalidate)
  | OnDigest event =>
      if (Type_ event =? CREATE)%Z then
        emit (Go (GoRefreshMachineSnapshotOnEvent event)) ;;
        ret (Continue revalidate)
      else if (Type_ event =? ERROR)%Z then ret Break
      else ret (Continue revalidate)
  | OnAutoDisc event =>
      if ((Type_ event =? CREATE) || (Type_ event =? UPDATE))%Z then
        emit (Go (GoRefreshDicoveredMachinesOnEvent event)) ;;
        ret (Continue revalidate)
      else ret (Continue revalidate)
  | OnTimer =>
      now <- time_Now ;;
      let sche_ := sche in_ now in
      revalidate <-
        (if time.IsZero sche_ then
           emit (TimerReset time.Minute) ;;
           ret true
         else
           now' <- time_Now ;;
           emit (TimerReset (time.Sub sche_ now')) ;;
           ret false) ;;
      (if negb revalidate then
         emit (Go GoCreateMachineDigestOnTime) ;;
         emit (Go GoAutoDiscoveryOnTime)
       else ret tt) ;;
      ret (Continue revalidate)
  end.

(** [LOOP: for { select { ... } }]: it returns at a [break LOOP]; once
    the environment supplies nothing more it stays blocked. *)
Fixpoint LOOP (in_ : Server) (revalidate : bool) (ready : list Ready)
  : M (World S) unit :=
  match ready with
  | [] => pending
  | r :: ready' =>
      ctl <- select in_ revalidate r ;;
      match ctl with
      | Break => ret tt
      | Continue revalidate' => LOOP in_ revalidate' ready'
      end
  end.

(** [for i := range in.clzSubCh { close(in.clzSubCh[i]) }] *)
Fixpoint close_each (cs : list Chan) : M (World S) unit :=
  match cs with
  | [] => ret tt
  | c :: cs' => close_chan c ;; close_each cs'
  end.

(** The deferred function of [Serve]. *)
Definition Serve_deferred : M ServerSt unit :=
  in_ <- this ;;
  liftW (close_each (clzSubCh in_)) ;;
  in_ <- this ;;
  assign (set_clzSubCh (firstn 0 (clzSubCh in_))).

(** Lines 76 to 85 of [Serve]: the timer is created; the value is the
    local [revalidate]. *)
Definition first_timer (in_ : Server) : M (World S) bool :=
  now <- time_Now ;;
  let sche_ := sche in_ now in
  if time.IsZero sche_ then
    emit (NewTimer time.Minute) ;;
    ret true
  else
    now' <- time_Now ;;
    emit (NewTimer (time.Sub sche_ now')) ;;
    ret false.

(** The body of [Serve]. *)
Definition Serve_body (ready : list Ready) : M ServerSt (option error) :=
  in_ <- this ;;
  r <- liftW (storage_of in_ NewMachine WatchOnKind) ;;
  assign (set_machineObserver (fst r)) ;;
  match snd r with
  | Some err => ret (Some err)
  | None =>
  in_ <- this ;;
  r <- liftW (storage_of in_ NewMachineDigest WatchOnKind) ;;
  assign (set_digestObserver (fst r)) ;;
  match snd r with
  | Some err => ret (Some err)
  | None =>
  in_ <- this ;;
  r <- liftW (storage_of in_ NewDiscoveredMachines WatchOnName) ;;
  assign (set_autoDiscObserver (fst r)) ;;
  match snd r with
  | Some err => ret (Some err)
  | None =>
  in_ <- this ;;
  liftW (Watcher_Output (machineObserver in_)) ;;
  liftW (Watcher_Output (digestObserver in_)) ;;
  liftW (Watcher_Output (autoDiscObserver in_)) ;;
  revalidate <- liftW (first_timer in_) ;;
  liftW (LOOP in_ revalidate ready) ;;
  liftW (emit TimerStop) ;;
  liftW (Watcher_Close (machineObserver in_)) ;;
  liftW (Watcher_Close (digestObserver in_)) ;;
  ret None
  end end end.

(** [func (in *Server) Serve() (err error)] *)
Definition Serve (ready : list Ready) : M ServerSt (option error) :=
  defer Serve_deferred (Serve_body ready).

End ServerCode.

(* ===================================================================== *)
(** ** Vocabulary of the statements *)

(** The iterations that end the loop: the stop signal, and an [ERROR]
    event of the machine-kind or of the digest-kind stream. *)
Definition breaks (r : Ready) : bool :=
  match r with
  | OnClose => true
  | OnMachine event => (Type_ event =? ERROR)%Z
  | OnDigest event => (Type_ event =? ERROR)%Z
  | OnAutoDisc _ => false
  | OnTimer => false
  end.

(** The channels a run of effects closed, in order. *)
Fixpoint closes (d : list Effect) : list Chan :=
  match d with
  | [] => []
  | ChanClose c :: d' => c :: closes d'
  | _ :: d' => closes d'
  end.

(** The watchers a run of effects closed, in order. *)
Fixpoint released (d : list Effect) : list Watcher :=
  match d with
  | [] => []
  | WatcherClose w :: d' => w :: released d'
  | _ :: d' => released d'
  end.

(** The tasks a run of effects started, in order. *)
Fixpoint started (d : list Effect) : list Task :=
  match d with
  | [] => []
  | Go t :: d' => t :: started d'
  | _ :: d' => started d'
  end.

(** The durations a run of effects armed the timer with, in order. *)
Fixpoint armed (d : list Effect) : list time.Duration :=
  match d with
  | [] => []
  | NewTimer x :: d' => x :: armed d'
  | TimerReset x :: d' => x :: armed d'
  | _ :: d' => armed d'
  end.

(** The executors a run of effects notified, with what they were handed. *)
Fixpoint notified (d : list Effect) : list (Executor * Object) :=
  match d with
  | [] => []
  | NotifyDigest e o :: d' => (e, o) :: notified d'
  | NotifyDiscoveredMachines e o :: d' => (e, o) :: notified d'
  | _ :: d' => notified d'
  end.

(** The world [w] after [n] more readings of the clock and the further
    effects [d]. *)
Definition later {S} (w : World S) (n : nat) (d : list Effect) : World S :=
  mkWorld (store w) (clock w) (n + nowCalls w) (randSeed w) (randDraws w)
          (nextChan w) (closedChans w) (trace w ++ d).

(** The effects an iteration of the loop can have. *)
Definition loop_effect (e : Effect) : bool :=
  match e with
  | Go _ | TimerReset _ => true
  | _ => false
  end.

Definition is_periodic (t : Task) : bool :=
  match t with
  | GoCreateMachineDigestOnTime | GoAutoDiscoveryOnTime => true
  | _ => false
  end.

(** The effects an iteration has while the schedule is indefinite: the
    timer is rearmed with a minute, and no periodic task is started. *)
Definition indefinite_effect (e : Effect) : bool :=
  match e with
  | Go t => negb (is_periodic t)
  | TimerReset x => (x =? time.Minute)%Z
  | _ => false
  end.

(** The channels of a world: those closed were made before. *)
Definition chans_made {S} (w : World S) : Prop :=
  forall c, In c (closedChans w) -> (c < nextChan w)%nat.

(** The subscriber registry of a server in a world: the handles are
    distinct channels that [make] returned, all still open, and none is
    the server's stop channel. *)
Definition registry_open {S} (in_ : Server) (w : World S) : Prop :=
  NoDup (clzSubCh in_) /\
  (closeCh in_ < nextChan w)%nat /\
  chans_made w /\
  forall c, In c (clzSubCh in_) ->
            (c < nextChan w)%nat /\ ~ In c (closedChans w) /\ c <> closeCh in_.

Section SpecWords.
Context {S : Type} `{Storage S} `{Externals}.

(** The discovery upsert in the spec's words: from the outcome [err] of
    the latest attempt and the store [s], [k] further create attempts
    are made, after which the outcome is [err'] and the store [s']:
    none if the attempt succeeded or failed with an internal error, one
    more create and then as before if it failed otherwise. *)
Inductive upsert (latest : Object)
  : option error -> S -> nat -> option error -> S -> Prop :=
| upsert_done s :
    upsert latest None s 0 None s
| upsert_abandon e s :
    IsInternalError e = true ->
    upsert latest (Some e) s 0 (Some e) s
| upsert_create e s err1 s1 k err' s' :
    IsInternalError e = false ->
    storage_Create latest s = (err1, s1) ->
    upsert latest err1 s1 k err' s' ->
    upsert latest (Some e) s (Datatypes.S k) err' s'.

(** The three subscriptions of [Serve] are established on the store
    [s0], as the watchers [w1], [w2], [w3], leaving the store [s3]. *)
Definition established (s0 : S) (w1 w2 w3 : Watcher) (s3 : S) : Prop :=
  exists s1 s2,
    storage_Watch NewMachine WatchOnKind s0 = ((Some w1, None), s1) /\
    storage_Watch NewMachineDigest WatchOnKind s1 = ((Some w2, None), s2) /\
    storage_Watch NewDiscoveredMachines WatchOnName s2
      = ((Some w3, None), s3).

(** [n] calls of [Subscribe], one after the other; the value is the
    handles they returned, in order. *)
Fixpoint Subscribe_n (n : nat) : M (Server * World S) (list Chan) :=
  match n with
  | O => ret []
  | Datatypes.S n' =>
      c <- Subscribe ;;
      cs <- Subscribe_n n' ;;
      ret (c :: cs)
  end.

End SpecWords.

(* ===================================================================== *)
(** ** Vocabulary of the further properties *)

(** The task an iteration starts for the event it receives, by stream and
    by type. *)
Definition routed_one (r : Ready) : list Task :=
  match r with
  | OnDigest event =>
      if (Type_ event =? CREATE)%Z
      then [GoRefreshMachineSnapshotOnEvent event] else []
  | OnAutoDisc event =>
      if ((Type_ event =? CREATE) || (Type_ event =? UPDATE))%Z
      then [GoRefreshDicoveredMachinesOnEvent event] else []
  | _ => []
  end.

(** The event tasks due for what the loop receives before it breaks. *)
Fixpoint routed (ready : list Ready) : list Task :=
  match ready with
  | [] => []
  | r :: ready' => if breaks r then [] else routed_one r ++ routed ready'
  end.

(** The timer expiries the loop receives before it breaks. *)
Fixpoint expiries (ready : list Ready) : nat :=
  match ready with
  | [] => 0
  | r :: ready' =>
      if breaks r then 0
      else match r with
           | OnTimer => Datatypes.S (expiries ready')
           | _ => expiries ready'
           end
  end.

(** [k] times the pair of periodic tasks. *)
Fixpoint periodic_pairs (k : nat) : list Task :=
  match k with
  | O => []
  | Datatypes.S k' =>
      GoCreateMachineDigestOnTime :: GoAutoDiscoveryOnTime :: periodic_pairs k'
  end.

(** The storage calls of a run of effects. *)
Definition is_storage_call (e : Effect) : bool :=
  match e with
  | StorageCreate _ | StorageUpdate _ | StorageWatch _ _ => true
  | _ => false
  end.

(** A handler after the registrations [execs], in order. *)
Definition registered (execs : list Executor) : Handler :=
  fold_left RegisterExecutor execs NewHandler.

(* ===================================================================== *)
(** ** A concrete store and concrete libraries, to run the code on *)

Module demo.

(** A store that answers from a script; past its end every create and
    update succeeds and every watch fails. *)
Record Script := mkScript {
  onCreate : list (option error);
  onUpdate : list (option error);
  onWatch : list (option Watcher * option error)
}.

Definition script_Create (_ : Object) (s : Script) : option error * Script :=
  match onCreate s with
  | [] => (None, s)
  | r :: rs => (r, mkScript rs (onUpdate s) (onWatch s))
  end.
Definition script_Update (_ : Object) (s : Script) : option error * Script :=
  match onUpdate s with
  | [] => (None, s)
  | r :: rs => (r, mkScript (onCreate s) rs (onWatch s))
  end.
Definition script_Watch (_ : Object) (_ : WatchMode) (s : Script)
  : (option Watcher * option error) * Script :=
  match onWatch s with
  | [] => ((None, Some "watch: unavailable"), s)
  | r :: rs => (r, mkScript (onCreate s) (onUpdate s) rs)
  end.

Definition store : Storage Script :=
  {| storage_Create := script_Create;
     storage_Update := script_Update;
     storage_Watch := script_Watch |}.

(** A store on which every create and update fails with the same error,
    and every watch is refused; its state counts the calls. *)
Definition stubborn (why : error) : Storage nat :=
  {| storage_Create := fun _ n => (Some why, Datatypes.S n);
     storage_Update := fun _ n => (Some why, Datatypes.S n);
     storage_Watch := fun _ _ n => ((None, Some why), Datatypes.S n) |}.

Definition object (kind : string) : Object :=
  {| GUID := ""; ObjKind := kind; Name := ""; Namespace := "";
     CreationTimestamp := time.zero; UpdatingTimestamp := None;
     IsDeleting := false; State := "" |}.

Definition SetGUID (o : Object) (id : string) : Object :=
  {| GUID := id; ObjKind := ObjKind o; Name := Name o;
     Namespace := Namespace o; CreationTimestamp := CreationTimestamp o;
     UpdatingTimestamp := UpdatingTimestamp o; IsDeleting := IsDeleting o;
     State := State o |}.

(** A decoder for payloads that are the bare identifier: the empty
    payload is malformed. *)
Definition decode (data : list Byte.byte) (cv : Object)
  : option error * Object :=
  match data with
  | [] => (Some "unexpected end of JSON input", cv)
  | _ => (None, SetGUID cv (string_of_list_byte data))
  end.

Definition libs : Externals :=
  {| NewMachine := object "machine";
     NewMachineDigest := object "machine_digest";
     NewDiscoveredMachines := object "discovered_machines";
     IsInternalError := String.eqb "internal";
     json_Unmarshal := decode;
     rand_draw := fun seed j _ => (seed + Z.of_nat j)%Z;
     cron_Parse := fun exp =>
       if String.eqb exp "" then inr "Empty spec string"
       else inl (fun t => (t + 60 * time.Second)%Z) |}.

(** A world at the Unix epoch whose clock advances a second a call, and
    in which one channel (a server's stop channel) has been made. *)
Definition world (s : Script) : World Script :=
  mkWorld s (fun n => (Z.of_nat n * time.Second)%Z) 0 0%Z 0 1 [] [].

Definition m1 : list Byte.byte := list_byte_of_string "m1".

Definition event (ty : WatchEventType) (data : list Byte.byte) : WatchEvent :=
  {| Type_ := ty; Kind := "machine_digest"; Key := "k"; Value := data |}.

(** A prepared server with no subscriber, on the given schedule. *)
Definition server (next : time.Time -> time.Time) : Server :=
  mkServer 0 [] next None None None (Some SharedStore)
           (Some {| executor := [] |}).

Definition every_minute (t : time.Time) : time.Time :=
  (t + 60 * time.Second)%Z.

Definition three_watchers : Script :=
  mkScript [] [] [(Some 1, None); (Some 2, None); (Some 3, None)].

(** A prepared server with two subscribers, in a world where their
    channels have been made. *)
Definition subscribed (next : time.Time -> time.Time) : Server :=
  mkServer 0 [1; 2] next None None None (Some SharedStore)
           (Some {| executor := [] |}).
Definition world3 (s : Script) : World Script :=
  mkWorld s (fun n => (Z.of_nat n * time.Second)%Z) 0 0%Z 0 3 [] [].

(** A server as [NewServer] leaves it: no store, no handler. *)
Definition unprepared (next : time.Time -> time.Time) : Server :=
  mkServer 0 [1; 2] next None None None None None.

(** A world over the store that never stops failing. *)
Definition stubborn_world : World nat :=
  mkWorld 0 (fun n => (Z.of_nat n * time.Second)%Z) 0 0%Z 0 1 [] [].

(** The second subscription is refused. *)
Definition second_refused : Script :=
  mkScript [] [] [(Some 1, None); (None, Some "watch: refused")].

(** The update finds no record, the first create collides, the second
    fails inside the store. *)
Definition troubled : Script :=
  mkScript [Some "exists"; Some "internal"] [Some "not found"] [].

End demo.

(* ===================================================================== *)
(** ** The dispatch handler *)

Ltac run_handler :=
  unfold refreshMachineSnapshotOnEvent, refreshDicoveredMachinesOnEvent,
         createMachineDigestOnTime, Unmarshal, defer, bind, ret, emit,
         time_Now, rand_Seed, rand_Intn, index, panic; cbn.

(** Two worlds that differ by the bracketing of their traces and of their
    clock counts. *)
Ltac same_world :=
  unfold later; cbn; rewrite <- ?app_assoc; cbn; repeat (f_equal; try lia).

Section HandlerFacts.
Context {S : Type} `{Storage S} `{Externals}.

Lemma pool_length_pos (pool : list Executor) :
  pool <> [] -> (0 < Z.of_nat (List.length pool))%Z.
Proof. destruct pool; [congruence | cbn; lia]. Qed.

Lemma pool_length_leb (pool : list Executor) :
  pool <> [] -> (Z.of_nat (List.length pool) <=? 0)%Z = false.
Proof. intros Hne. apply Z.leb_gt, pool_length_pos, Hne. Qed.

(** An index below the length of the pool names one of its members. *)
Lemma pool_index (pool : list Executor) (i : Z) :
  (0 <= i < Z.of_nat (List.length pool))%Z ->
  (i <? 0)%Z = false /\
  exists exec, nth_error pool (Z.to_nat i) = Some exec /\ In exec pool.
Proof.
  intros [Hlo Hhi]. split; [apply Z.ltb_ge, Hlo|].
  destruct (nth_error pool (Z.to_nat i)) as [exec|] eqn:E.
  - exists exec. split; [reflexivity | eapply nth_error_In, E].
  - apply nth_error_None in E. lia.
Qed.

(** What [rand.Intn(len(in.executor))] returns on a non-empty pool. *)
Lemma draw_in_pool (pool : list Executor) (seed : Z) (j : nat) :
  pool <> [] ->
  let n := Z.of_nat (List.length pool) in
  (0 <= rand_draw seed j n mod n < n)%Z.
Proof. intros Hne n. apply Z.mod_pos_bound, pool_length_pos, Hne. Qed.

(** The event handlers, by the three ways they can go. *)
Lemma refreshMachineSnapshotOnEvent_malformed in_ event (w : World S) e :
  fst (Unmarshal event NewMachineDigest) = Some e ->
  refreshMachineSnapshotOnEvent in_ event w
  = (Returned tt,
     mkWorld (store w) (clock w) (nowCalls w) (randSeed w) (randDraws w)
       (nextChan w) (closedChans w)
       (trace w ++
        [LogInfo "Notifying executor to refresh machine information";
         LogError e; LogSync])).
Proof.
  run_handler.
  destruct (json_Unmarshal (Value event) NewMachineDigest) as [err d].
  cbn. intros ->. cbn. rewrite <- !app_assoc. reflexivity.
Qed.

Lemma refreshMachineSnapshotOnEvent_empty in_ event (w : World S) :
  fst (Unmarshal event NewMachineDigest) = None ->
  executor in_ = [] ->
  refreshMachineSnapshotOnEvent in_ event w
  = (Panicked "invalid argument to Intn",
     mkWorld (store w) (clock w) (Datatypes.S (nowCalls w))
       (time.Unix (clock w (nowCalls w))) 0
       (nextChan w) (closedChans w)
       (trace w ++
        [LogInfo "Notifying executor to refresh machine information";
         LogSync])).
Proof.
  run_handler.
  destruct (json_Unmarshal (Value event) NewMachineDigest) as [err d].
  cbn. intros -> ->. cbn. rewrite <- !app_assoc. reflexivity.
Qed.

Lemma refreshMachineSnapshotOnEvent_decoded in_ event (w : World S) :
  fst (Unmarshal event NewMachineDigest) = None ->
  executor in_ <> [] ->
  exists exec,
    In exec (executor in_) /\
    refreshMachineSnapshotOnEvent in_ event w
    = (Returned tt,
       mkWorld (store w) (clock w) (Datatypes.S (nowCalls w))
         (time.Unix (clock w (nowCalls w))) 1
         (nextChan w) (closedChans w)
         (trace w ++
          [LogInfo "Notifying executor to refresh machine information";
           NotifyDigest exec (snd (Unmarshal event NewMachineDigest));
           LogSync])).
Proof.
  intros Hdec Hne.
  pose proof (draw_in_pool (executor in_)
                (time.Unix (clock w (nowCalls w))) 0 Hne) as Hi.
  destruct (pool_index _ _ Hi) as [Hlt [exec [Hnth Hin]]].
  exists exec. split; [exact Hin|].
  revert Hdec. run_handler.
  destruct (json_Unmarshal (Value event) NewMachineDigest) as [err d].
  cbn. intros ->. cbn.
  rewrite (pool_length_leb _ Hne). cbn. rewrite Hlt, Hnth. cbn.
  rewrite <- !app_assoc. reflexivity.
Qed.

Lemma refreshDicoveredMachinesOnEvent_malformed in_ event (w : World S) e :
  fst (Unmarshal event NewDiscoveredMachines) = Some e ->
  refreshDicoveredMachinesOnEvent in_ event w
  = (Returned tt,
     mkWorld (store w) (clock w) (nowCalls w) (randSeed w) (randDraws w)
       (nextChan w) (closedChans w)
       (trace w ++
        [LogInfo "Notifying executor to refresh machine information";
         LogError e; LogSync])).
Proof.
  run_handler.
  destruct (json_Unmarshal (Value event) NewDiscoveredMachines) as [err d].
  cbn. intros ->. cbn. rewrite <- !app_assoc. reflexivity.
Qed.

Lemma refreshDicoveredMachinesOnEvent_empty in_ event (w : World S) :
  fst (Unmarshal event NewDiscoveredMachines) = None ->
  executor in_ = [] ->
  refreshDicoveredMachinesOnEvent in_ event w
  = (Panicked "invalid argument to Intn",
     mkWorld (store w) (clock w) (Datatypes.S (nowCalls w))
       (time.Unix (clock w (nowCalls w))) 0
       (nextChan w) (closedChans w)
       (trace w ++
        [LogInfo "Notifying executor to refresh machine information";
         LogSync])).
Proof.
  run_handler.
  destruct (json_Unmarshal (Value event) NewDiscoveredMachines) as [err d].
  cbn. intros -> ->. cbn. rewrite <- !app_assoc. reflexivity.
Qed.

Lemma refreshDicoveredMachinesOnEvent_decoded in_ event (w : World S) :
  fst (Unmarshal event NewDiscoveredMachines) = None ->
  executor in_ <> [] ->
  exists exec,
    In exec (executor in_) /\
    refreshDicoveredMachinesOnEvent in_ event w
    = (Returned tt,
       mkWorld (store w) (clock w) (Datatypes.S (nowCalls w))
         (time.Unix (clock w (nowCalls w))) 1
         (nextChan w) (closedChans w)
         (trace w ++
          [LogInfo "Notifying executor to refresh machine information";
           NotifyDiscoveredMachines exec
             (snd (Unmarshal event NewDiscoveredMachines));
           LogSync])).
Proof.
  intros Hdec Hne.
  pose proof (draw_in_pool (executor in_)
                (time.Unix (clock w (nowCalls w))) 0 Hne) as Hi.
  destruct (pool_index _ _ Hi) as [Hlt [exec [Hnth Hin]]].
  exists exec. split; [exact Hin|].
  revert Hdec. run_handler.
  destruct (json_Unmarshal (Value event) NewDiscoveredMachines) as [err d].
  cbn. intros ->. cbn.
  rewrite (pool_length_leb _ Hne). cbn. rewrite Hlt, Hnth. cbn.
  rewrite <- !app_assoc. reflexivity.
Qed.

(** The retry loop against the spec's words: when the upsert settles
    after [k] create attempts, [RETRY] with more than [k] units of fuel
    returns, having made exactly these [k] calls, and logs an error
    exactly when the last outcome is one. *)
Lemma RETRY_upsert latest err s k err' s' :
  upsert latest err s k err' s' ->
  forall fuel (w : World S),
    (k < fuel)%nat -> store w = s ->
    RETRY fuel latest err w
    = (Returned tt,
       mkWorld s' (clock w) (nowCalls w) (randSeed w) (randDraws w)
         (nextChan w) (closedChans w)
         (trace w ++ repeat (StorageCreate latest) k ++
          match err' with
          | Some e =>
              [LogErrorf
                 "Could not mark auto-discovery as `STARTED` state: %v" e]
          | None => []
          end)).
Proof.
  induction 1 as [s | e s Hint | e s err1 s1 k err' s' Hint Hcr _ IH];
    intros fuel w Hk Hs; (destruct fuel as [|fuel]; [lia|]); cbn.
  - destruct w; cbn in *; subst. unfold ret. rewrite app_nil_r. reflexivity.
  - rewrite Hint. cbn. destruct w; cbn in *; subst. reflexivity.
  - rewrite Hint. cbn. unfold bind, Create, with_store.
    rewrite Hs, Hcr.
    rewrite IH by (cbn; (lia || reflexivity)). cbn.
    rewrite <- !app_assoc. reflexivity.
Qed.

(** An upsert ends on success or on an internal error. *)
Lemma upsert_final latest err s k err' s' :
  upsert latest err s k err' s' ->
  err' = None \/ exists e, err' = Some e /\ IsInternalError e = true.
Proof.
  induction 1; [left; reflexivity | right; eauto | assumption].
Qed.

(** Conversely, a [RETRY] that returns has settled in the spec's
    sense, within the fuel it was given. *)
Lemma RETRY_returns latest :
  forall fuel err (w w' : World S),
    RETRY fuel latest err w = (Returned tt, w') ->
    exists k err', (k < fuel)%nat /\
                   upsert latest err (store w) k err' (store w').
Proof.
  induction fuel as [|fuel IH]; intros err w w' Hrun; cbn in Hrun.
  - discriminate.
  - destruct err as [e|].
    + destruct (IsInternalError e) eqn:Hint; cbn in Hrun.
      * inversion Hrun; subst; cbn.
        exists 0%nat, (Some e). split; [lia | constructor; exact Hint].
      * unfold bind, Create, with_store in Hrun.
        destruct (storage_Create latest (store w)) as [err1 s1] eqn:Hcr.
        apply IH in Hrun. cbn in Hrun.
        destruct Hrun as [k [err' [Hk Hup]]].
        exists (Datatypes.S k), err'. split; [lia|].
        econstructor; eassumption.
    + inversion Hrun; subst.
      exists 0%nat, None. split; [lia | constructor].
Qed.

(** Against a store that keeps failing with a non-internal error the
    retry loop does not return, whatever the fuel. *)
Lemma RETRY_spins latest (Inv : S -> Prop) :
  (forall s, Inv s ->
             exists e s', storage_Create latest s = (Some e, s') /\
                          IsInternalError e = false /\ Inv s') ->
  forall fuel e (w : World S),
    IsInternalError e = false -> Inv (store w) ->
    fst (RETRY fuel latest (Some e) w) = Pending.
Proof.
  intros Hstep. induction fuel as [|fuel IH]; intros e w Hint Hinv; cbn.
  - reflexivity.
  - rewrite Hint. cbn. unfold bind, Create, with_store.
    destruct (Hstep _ Hinv) as [e' [s' [Hcr [Hint' Hinv']]]].
    rewrite Hcr. apply IH; assumption.
Qed.

(** The observations of a trace distribute over its extension. *)
Lemma notified_app d1 d2 : notified (d1 ++ d2) = notified d1 ++ notified d2.
Proof.
  induction d1 as [|e d1 IH]; [reflexivity|].
  destruct e; cbn; rewrite ?IH; reflexivity.
Qed.

End HandlerFacts.


Section HandlerClaims.
Context {S : Type} `{Storage S} `{Externals}.

(** C10.  The index [rand.Intn(len(in.executor))] is within the executor
    slice exactly when an executor is registered: on a non-empty pool
    the draw returns an index below the length and the indexing yields
    a member of the pool; on an empty pool the draw panics.  Hence, for
    a digest or discovered-machines event whose payload decodes, the
    dispatched task returns when the pool is non-empty and panics,
    having notified nobody, when it is empty. *)
Theorem C10_selection_needs_nonempty_pool :
  forall (in_ : Handler) (event : WatchEvent) (w : World S),
    let n := Z.of_nat (List.length (executor in_)) in
    (executor in_ <> [] ->
       exists i w',
         rand_Intn n w = (Returned i, w') /\ (0 <= i < n)%Z /\
         exists exec, index (executor in_) i w' = (Returned exec, w') /\
                      In exec (executor in_)) /\
    (executor in_ = [] ->
       rand_Intn n w = (Panicked "invalid argument to Intn", w)) /\
    (fst (Unmarshal event NewMachineDigest) = None ->
       (executor in_ <> [] ->
          fst (refreshMachineSnapshotOnEvent in_ event w) = Returned tt) /\
       (executor in_ = [] ->
          fst (refreshMachineSnapshotOnEvent in_ event w)
            = Panicked "invalid argument to Intn" /\
          notified (trace (snd (refreshMachineSnapshotOnEvent in_ event w)))
            = notified (trace w))) /\
    (fst (Unmarshal event NewDiscoveredMachines) = None ->
       (executor in_ <> [] ->
          fst (refreshDicoveredMachinesOnEvent in_ event w) = Returned tt) /\
       (executor in_ = [] ->
          fst (refreshDicoveredMachinesOnEvent in_ event w)
            = Panicked "invalid argument to Intn" /\
          notified
            (trace (snd (refreshDicoveredMachinesOnEvent in_ event w)))
            = notified (trace w))).
Proof.
  intros in_ event w n.
  split; [|split; [|split]].
  - intros Hne.
    pose proof (draw_in_pool (executor in_) (randSeed w) (randDraws w) Hne)
      as Hi.
    destruct (pool_index _ _ Hi) as [Hlt [exec [Hnth Hin]]].
    eexists. eexists. split; [|split; [exact Hi|]].
    + unfold rand_Intn, n. rewrite (pool_length_leb _ Hne). reflexivity.
    + exists exec. split; [|exact Hin].
      unfold index. rewrite Hlt, Hnth. reflexivity.
  - intros He. unfold n. rewrite He. reflexivity.
  - intros Hdec. split.
    + intros Hne.
      destruct (refreshMachineSnapshotOnEvent_decoded in_ event w Hdec Hne)
        as [exec [_ ->]]. reflexivity.
    + intros He.
      rewrite (refreshMachineSnapshotOnEvent_empty in_ event w Hdec He).
      cbn. split; [reflexivity|].
      rewrite notified_app. cbn. apply app_nil_r.
  - intros Hdec. split.
    + intros Hne.
      destruct (refreshDicoveredMachinesOnEvent_decoded in_ event w Hdec Hne)
        as [exec [_ ->]]. reflexivity.
    + intros He.
      rewrite (refreshDicoveredMachinesOnEvent_empty in_ event w Hdec He).
      cbn. split; [reflexivity|].
      rewrite notified_app. cbn. apply app_nil_r.
Qed.


(** C3.  The periodic discovery action first calls the store's update
    on the discovered-machines record with state "Started".  While the
    latest outcome is a failure that is not internal it calls create,
    again and again, until an outcome is a success or an internal
    error: when that happens after [k] creates, the action (given fuel
    for them) returns, having made the one update and exactly the [k]
    creates, and it logs the error exactly when the last outcome is an
    internal one. *)
Theorem C3_discovery_update_then_create_until_settled :
  forall (in_ : Handler) (w : World S) (err0 : option error) (s1 : S)
         (k : nat) (err' : option error) (s' : S) (fuel : nat),
    let latest := SetState NewDiscoveredMachines StartedState in
    storage_Update latest (store w) = (err0, s1) ->
    upsert latest err0 s1 k err' s' ->
    (k < fuel)%nat ->
    State latest = "Started" /\
    (err' = None \/ exists e, err' = Some e /\ IsInternalError e = true) /\
    fst (autoDiscoveryOnTime fuel in_ w) = Returned tt /\
    store (snd (autoDiscoveryOnTime fuel in_ w)) = s' /\
    trace (snd (autoDiscoveryOnTime fuel in_ w))
    = trace w ++
      [LogInfo "Auto-discovering new machines on preset zones...";
       StorageUpdate latest] ++
      repeat (StorageCreate latest) k ++
      match err' with
      | Some e =>
          [LogErrorf
             "Could not mark auto-discovery as `STARTED` state: %v" e]
      | None => []
      end ++ [LogSync].
Proof.
  intros in_ w err0 s1 k err' s' fuel latest Hup Hspec Hk.
  split; [reflexivity|].
  split; [eapply upsert_final; exact Hspec|].
  unfold autoDiscoveryOnTime, defer, bind, Update, with_store, emit. cbn.
  fold latest. rewrite Hup.
  rewrite (RETRY_upsert _ _ _ _ _ _ Hspec) by (cbn; (lia || reflexivity)).
  cbn. repeat split.
  rewrite <- !app_assoc. reflexivity.
Qed.

(** The other side of C3: against a store whose update and creates keep
    failing with an error that is not internal, the action has not
    returned after any number of retries. *)
Lemma autoDiscoveryOnTime_spins (Inv : S -> Prop) (in_ : Handler) :
  let latest := SetState NewDiscoveredMachines StartedState in
  (forall s, Inv s ->
             exists e s', storage_Create latest s = (Some e, s') /\
                          IsInternalError e = false /\ Inv s') ->
  forall (w : World S) e s1,
    storage_Update latest (store w) = (Some e, s1) ->
    IsInternalError e = false -> Inv s1 ->
    forall fuel, fst (autoDiscoveryOnTime fuel in_ w) = Pending.
Proof.
  intros latest Hstep w e s1 Hup Hint Hinv fuel.
  unfold autoDiscoveryOnTime, defer, bind, Update, with_store, emit. cbn.
  fold latest. rewrite Hup.
  match goal with
  | |- context [RETRY fuel latest (Some e) ?w0] =>
      pose proof (RETRY_spins latest Inv Hstep fuel e w0 Hint Hinv) as Hp;
      destruct (RETRY fuel latest (Some e) w0) as [r w1]
  end.
  cbn in Hp. subst r. reflexivity.
Qed.

End HandlerClaims.

(* ===================================================================== *)
(** ** The loop of [Serve] *)

Section LoopFacts.
Context {S : Type} `{Storage S} `{Externals}.

Lemma later_0_nil (w : World S) : later w 0 [] = w.
Proof. destruct w. unfold later. cbn. rewrite app_nil_r. reflexivity. Qed.

Lemma later_later (w : World S) n d n' d' :
  later (later w n d) n' d' = later w (n' + n) (d ++ d').
Proof.
  unfold later. cbn. rewrite Nat.add_assoc, app_assoc. reflexivity.
Qed.

Lemma closes_app d1 d2 : closes (d1 ++ d2) = closes d1 ++ closes d2.
Proof.
  induction d1 as [|e d1 IH]; [reflexivity|].
  destruct e; cbn; rewrite ?IH; reflexivity.
Qed.

Lemma released_app d1 d2 : released (d1 ++ d2) = released d1 ++ released d2.
Proof.
  induction d1 as [|e d1 IH]; [reflexivity|].
  destruct e; cbn; rewrite ?IH; reflexivity.
Qed.

Lemma started_app d1 d2 : started (d1 ++ d2) = started d1 ++ started d2.
Proof.
  induction d1 as [|e d1 IH]; [reflexivity|].
  destruct e; cbn; rewrite ?IH; reflexivity.
Qed.

Lemma armed_app d1 d2 : armed (d1 ++ d2) = armed d1 ++ armed d2.
Proof.
  induction d1 as [|e d1 IH]; [reflexivity|].
  destruct e; cbn; rewrite ?IH; reflexivity.
Qed.

Lemma closes_map_ChanClose cs : closes (map ChanClose cs) = cs.
Proof. induction cs as [|c cs IH]; cbn; [|rewrite IH]; reflexivity. Qed.

Lemma released_map_ChanClose cs : released (map ChanClose cs) = [].
Proof. induction cs as [|c cs IH]; cbn; [reflexivity | exact IH]. Qed.

Lemma started_map_ChanClose cs : started (map ChanClose cs) = [].
Proof. induction cs as [|c cs IH]; cbn; [reflexivity | exact IH]. Qed.

Lemma armed_map_ChanClose cs : armed (map ChanClose cs) = [].
Proof. induction cs as [|c cs IH]; cbn; [reflexivity | exact IH]. Qed.

(** The loop closes no channel and no watcher. *)
Lemma loop_effects_close_nothing d :
  Forall (fun e => loop_effect e = true) d ->
  closes d = [] /\ released d = [].
Proof.
  induction 1 as [|e d He _ [IH1 IH2]]; [split; reflexivity|].
  destruct e; cbn in *; try discriminate; split; assumption.
Qed.

Lemma indefinite_is_loop_effect d :
  Forall (fun e => indefinite_effect e = true) d ->
  Forall (fun e => loop_effect e = true) d.
Proof.
  apply Forall_impl. intros e. destruct e; cbn; congruence.
Qed.


(** An iteration that breaks has no effect. *)
Lemma select_Break in_ rv r (w : World S) :
  breaks r = true -> select in_ rv r w = (Returned Break, w).
Proof.
  destruct r as [|event|event| |]; cbn; try discriminate; try reflexivity.
  - intros He. apply Z.eqb_eq in He. rewrite He. reflexivity.
  - intros He. apply Z.eqb_eq in He. rewrite He. reflexivity.
Qed.

(** Any other iteration goes on to the next one; it reads the clock
    and has effects of the loop only. *)
Lemma select_Continue in_ rv r (w : World S) :
  breaks r = false ->
  exists rv' n d,
    select in_ rv r w = (Returned (Continue rv'), later w n d) /\
    Forall (fun e => loop_effect e = true) d.
Proof.
  destruct r as [|event|event|event|]; cbn; try discriminate.
  - intros ->. exists rv, 0%nat, []. rewrite later_0_nil.
    split; [|constructor].
    destruct (Type_ event =? _)%Z; reflexivity.
  - intros ->.
    destruct (Type_ event =? _)%Z.
    + exists rv, 0%nat, [Go (GoRefreshMachineSnapshotOnEvent event)].
      split; [reflexivity | repeat constructor].
    + exists rv, 0%nat, []. rewrite later_0_nil.
      split; [reflexivity | constructor].
  - intros _.
    destruct ((Type_ event =? _)%Z || _).
    + exists rv, 0%nat, [Go (GoRefreshDicoveredMachinesOnEvent event)].
      split; [reflexivity | repeat constructor].
    + exists rv, 0%nat, []. rewrite later_0_nil.
      split; [reflexivity | constructor].
  - intros _. unfold bind, time_Now, emit, ret. cbn.
    destruct (time.IsZero (sche in_ (clock w (nowCalls w)))); cbn.
    + exists true, 1%nat, [TimerReset time.Minute].
      split; [reflexivity | repeat constructor].
    + eexists false, 2%nat, [TimerReset _; Go _; Go _].
      split; [|repeat constructor].
      unfold later. cbn. rewrite <- !app_assoc. reflexivity.
Qed.


(** The loop returns exactly when the environment supplies an iteration
    that breaks; until then it has effects of its iterations only. *)
Lemma LOOP_run (P : Effect -> bool) in_ :
  (forall rv r (w : World S),
      breaks r = false ->
      exists rv' n d,
        select in_ rv r w = (Returned (Continue rv'), later w n d) /\
        Forall (fun e => P e = true) d) ->
  forall ready rv (w : World S),
  exists n d,
    LOOP in_ rv ready w
    = (if existsb breaks ready then Returned tt else Pending, later w n d) /\
    Forall (fun e => P e = true) d.
Proof.
  intros Hsel. induction ready as [|r ready IH]; intros rv w; cbn.
  - exists 0%nat, []. rewrite later_0_nil. split; [reflexivity|constructor].
  - unfold bind. destruct (breaks r) eqn:Hb; cbn.
    + rewrite (select_Break _ _ _ _ Hb).
      exists 0%nat, []. rewrite later_0_nil.
      split; [reflexivity|constructor].
    + destruct (Hsel rv r w Hb) as [rv' [n [d [-> Hd]]]].
      destruct (IH rv' (later w n d)) as [n' [d' [-> Hd']]].
      exists (n' + n)%nat, (d ++ d'). rewrite later_later.
      split; [reflexivity | apply Forall_app; split; assumption].
Qed.

End LoopFacts.

(* ===================================================================== *)
(** ** [Serve] *)

Section ServeFacts.
Context {S : Type} `{Storage S} `{Externals}.

Lemma bind_Returned {St A B} (c : M St A) (k : A -> M St B) s a s' :
  c s = (Returned a, s') -> bind c k s = k a s'.
Proof. unfold bind. intros ->. reflexivity. Qed.

Lemma not_closed c (l : list Chan) :
  ~ In c l -> existsb (Nat.eqb c) l = false.
Proof.
  intros Hn. destruct (existsb (Nat.eqb c) l) eqn:E; [|reflexivity].
  apply existsb_exists in E. destruct E as [x [Hin Hx]].
  apply Nat.eqb_eq in Hx. subst x. contradiction.
Qed.

(** Closing distinct open channels closes each of them, in order. *)
Lemma close_each_open cs :
  forall (w : World S),
    NoDup cs -> (forall c, In c cs -> ~ In c (closedChans w)) ->
    close_each cs w
    = (Returned tt,
       mkWorld (store w) (clock w) (nowCalls w) (randSeed w) (randDraws w)
         (nextChan w) (closedChans w ++ cs)
         (trace w ++ map ChanClose cs)).
Proof.
  induction cs as [|c cs IH]; intros w Hnd Hopen; cbn.
  - unfold ret. rewrite !app_nil_r. destruct w; reflexivity.
  - unfold bind, close_chan.
    rewrite (not_closed c (closedChans w)) by (apply Hopen; left; reflexivity).
    inversion Hnd as [|? ? Hc Hnd']; subst.
    rewrite IH; cbn.
    + rewrite <- !app_assoc. reflexivity.
    + exact Hnd'.
    + intros c' Hin Hcl. apply in_app_or in Hcl. destruct Hcl as [Hcl|Hcl].
      * apply (Hopen c'); [right; exact Hin | exact Hcl].
      * destruct Hcl as [->|[]]. contradiction.
Qed.

(** [Serve] on a prepared server whose three subscriptions are
    established: it returns nil when the loop breaks, after the effects
    listed; until then it has not returned. *)
Lemma Serve_established (P : Effect -> bool) in_ (w : World S) w1 w2 w3 s3 :
  (forall rv r (w : World S),
      breaks r = false ->
      exists rv' n d,
        select in_ rv r w = (Returned (Continue rv'), later w n d) /\
        Forall (fun e => P e = true) d) ->
  storage in_ = Some SharedStore ->
  established (store w) w1 w2 w3 s3 ->
  registry_open in_ w ->
  forall ready,
  exists n d,
    Forall (fun e => P e = true) d /\
    let now := clock w (nowCalls w) in
    let x := if time.IsZero (sche in_ now) then time.Minute
             else time.Sub (sche in_ now)
                           (clock w (Datatypes.S (nowCalls w))) in
    let opened := [StorageWatch NewMachine WatchOnKind;
                   StorageWatch NewMachineDigest WatchOnKind;
                   StorageWatch NewDiscoveredMachines WatchOnName;
                   NewTimer x] in
    let in' := set_autoDiscObserver (Some w3)
                 (set_digestObserver (Some w2)
                    (set_machineObserver (Some w1) in_)) in
    Serve ready (in_, w)
    = if existsb breaks ready then
        (Returned None,
         (set_clzSubCh [] in',
          mkWorld s3 (clock w) (n + nowCalls w) (randSeed w) (randDraws w)
            (nextChan w) (closedChans w ++ clzSubCh in_)
            (trace w ++ opened ++ d ++
             [TimerStop; WatcherClose w1; WatcherClose w2] ++
             map ChanClose (clzSubCh in_))))
      else
        (Pending,
         (in',
          mkWorld s3 (clock w) (n + nowCalls w) (randSeed w) (randDraws w)
            (nextChan w) (closedChans w) (trace w ++ opened ++ d))).
Proof.
  intros Hsel Hst [s1 [s2 [Hw1 [Hw2 Hw3]]]] [Hnd [_ [_ Hopen]]] ready.
  unfold Serve, defer, Serve_body, Serve_deferred, bind, this, liftW,
    assign, storage_of, Watch, with_store, ret. cbn.
  rewrite Hst. cbn. rewrite Hw1. cbn. rewrite Hst. cbn. rewrite Hw2. cbn.
  rewrite Hst. cbn. rewrite Hw3. cbn.
  unfold first_timer, bind, time_Now, emit, ret. cbn.
  destruct (time.IsZero (sche in_ (clock w (nowCalls w)))); cbn;
    match goal with
    | |- context [LOOP ?i ?rv ready ?w0] =>
        destruct (LOOP_run P i Hsel ready rv w0) as [n [d [Hrun Hd]]];
        rewrite Hrun; clear Hrun
    end;
    [exists (n + 1)%nat, d | exists (n + 2)%nat, d];
    (split; [exact Hd|]);
    (destruct (existsb breaks ready); cbn;
     [ rewrite close_each_open;
       [ same_world
       | exact Hnd
       | intros c Hin; apply (Hopen c Hin) ]
     | same_world ]).
Qed.

(** The registry of a server that [NewServer] returned is empty, and
    open. *)
Lemma NewServer_registry exp (w w' : World S) in_ :
  chans_made w ->
  NewServer exp w = (Returned (Some in_, None), w') ->
  clzSubCh in_ = [] /\ registry_open in_ w'.
Proof.
  intros Hmade. unfold NewServer.
  destruct (cron_Parse exp) as [next|err]; cbn.
  - unfold bind, make_chan, ret. intros Heq. inversion Heq; subst; cbn.
    split; [reflexivity|]. unfold registry_open, chans_made; cbn.
    split; [constructor|]. split; [lia|]. split; [|intros c []].
    intros c Hc. specialize (Hmade c Hc). lia.
  - unfold ret. discriminate.
Qed.

Lemma Prepare_registry in_ (w : World S) :
  registry_open in_ w -> registry_open (Prepare in_) w.
Proof. intros Hr. exact Hr. Qed.

(** [Subscribe] returns a channel that is new, appends it to the
    registry, and keeps the registry open. *)
Lemma Subscribe_registry in_ (w : World S) :
  registry_open in_ w ->
  let c := nextChan w in
  let in' := set_clzSubCh (clzSubCh in_ ++ [c]) in_ in
  let w' := mkWorld (store w) (clock w) (nowCalls w) (randSeed w)
              (randDraws w) (Datatypes.S c) (closedChans w) (trace w) in
  Subscribe (in_, w) = (Returned c, (in', w')) /\
  ~ In c (clzSubCh in_) /\
  registry_open in' w'.
Proof.
  intros [Hnd [Hcl [Hmade Hopen]]] c in' w'.
  assert (Hfresh : ~ In c (clzSubCh in_)).
  { intros Hin. destruct (Hopen c Hin) as [Hlt _]. unfold c in Hlt. lia. }
  split; [reflexivity|]. split; [exact Hfresh|].
  unfold registry_open, chans_made; cbn. split; [|split; [|split]].
  - apply NoDup_app; [exact Hnd | repeat constructor; intros [] |].
    intros x Hx [<-|[]]. contradiction.
  - unfold c. lia.
  - intros x Hx. specialize (Hmade x Hx). unfold c. lia.
  - intros x Hx. apply in_app_or in Hx. destruct Hx as [Hx|[<-|[]]].
    + destruct (Hopen x Hx) as [Hlt [Hncl Hne]].
      split; [lia | split; assumption].
    + split; [unfold c; lia|]. split.
      * intros Hin. specialize (Hmade c Hin). unfold c in Hmade. lia.
      * unfold c. lia.
Qed.

(** [n] subscriptions return [n] handles and append them, in order, to
    the registry, which stays open; the store is not touched. *)
Lemma Subscribe_n_registry n :
  forall in_ (w : World S),
    registry_open in_ w ->
    exists handles in' w',
      Subscribe_n n (in_, w) = (Returned handles, (in', w')) /\
      List.length handles = n /\
      clzSubCh in' = clzSubCh in_ ++ handles /\
      storage in' = storage in_ /\ sche in' = sche in_ /\
      store w' = store w /\ trace w' = trace w /\
      registry_open in' w'.
Proof.
  induction n as [|n IH]; intros in_ w Hr; cbn [Subscribe_n].
  - exists [], in_, w. unfold ret. rewrite app_nil_r.
    split; [reflexivity|]. split; [reflexivity|].
    repeat (split; [reflexivity|]). exact Hr.
  - destruct (Subscribe_registry in_ w Hr) as [Hsub [_ Hr']].
    rewrite (bind_Returned _ _ _ _ _ Hsub).
    destruct (IH _ _ Hr') as [hs [in' [w' [Hrun [Hlen [Hreg [Hs [Hsc [Hst [Htr Hr'']]]]]]]]]].
    rewrite (bind_Returned _ _ _ _ _ Hrun). cbn in *.
    exists (nextChan w :: hs), in', w'. unfold ret.
    split; [reflexivity|]. split; [cbn; rewrite Hlen; reflexivity|].
    split; [rewrite Hreg, <- app_assoc; reflexivity|].
    repeat (split; [assumption|]). exact Hr''.
Qed.

End ServeFacts.

Section ServeClaims.
Context {S : Type} `{Storage S} `{Externals}.

Lemma breaks_in_the_middle pre x rest :
  breaks x = true -> existsb breaks (pre ++ x :: rest) = true.
Proof.
  intros Hx. rewrite existsb_app. cbn. rewrite Hx.
  apply orb_true_r.
Qed.

(** When the second subscription cannot be established, [Serve]
    returns the failure; the first watcher stays in the server and is
    not closed. *)
Lemma Serve_second_watch_fails in_ (w : World S) w1 s1 o err s2 ready :
  storage in_ = Some SharedStore ->
  registry_open in_ w ->
  storage_Watch NewMachine WatchOnKind (store w) = ((Some w1, None), s1) ->
  storage_Watch NewMachineDigest WatchOnKind s1 = ((o, Some err), s2) ->
  exists in' w',
    Serve ready (in_, w) = (Returned (Some err), (in', w')) /\
    machineObserver in' = Some w1 /\
    trace w' = trace w ++
               [StorageWatch NewMachine WatchOnKind;
                StorageWatch NewMachineDigest WatchOnKind] ++
               map ChanClose (clzSubCh in_) /\
    released (trace w') = released (trace w).
Proof.
  intros Hst [Hnd [_ [_ Hopen]]] Hw1 Hw2.
  unfold Serve, defer, Serve_body, Serve_deferred, bind, this, liftW,
    assign, storage_of, Watch, with_store, ret. cbn.
  rewrite Hst. cbn. rewrite Hw1. cbn. rewrite Hst. cbn. rewrite Hw2. cbn.
  rewrite close_each_open;
    [cbn | exact Hnd | intros c Hin; apply (Hopen c Hin)].
  eexists. eexists. split; [reflexivity|]. cbn.
  split; [reflexivity|]. split.
  - rewrite <- !app_assoc. reflexivity.
  - rewrite !released_app, released_map_ChanClose. cbn.
    rewrite !app_nil_r. reflexivity.
Qed.

(** The same when it is the third subscription that fails: two
    watchers stay open. *)
Lemma Serve_third_watch_fails in_ (w : World S) w1 s1 w2 s2 o err s3 ready :
  storage in_ = Some SharedStore ->
  registry_open in_ w ->
  storage_Watch NewMachine WatchOnKind (store w) = ((Some w1, None), s1) ->
  storage_Watch NewMachineDigest WatchOnKind s1 = ((Some w2, None), s2) ->
  storage_Watch NewDiscoveredMachines WatchOnName s2
    = ((o, Some err), s3) ->
  exists in' w',
    Serve ready (in_, w) = (Returned (Some err), (in', w')) /\
    machineObserver in' = Some w1 /\ digestObserver in' = Some w2 /\
    released (trace w') = released (trace w).
Proof.
  intros Hst [Hnd [_ [_ Hopen]]] Hw1 Hw2 Hw3.
  unfold Serve, defer, Serve_body, Serve_deferred, bind, this, liftW,
    assign, storage_of, Watch, with_store, ret. cbn.
  rewrite Hst. cbn. rewrite Hw1. cbn. rewrite Hst. cbn. rewrite Hw2. cbn.
  rewrite Hst. cbn. rewrite Hw3. cbn.
  rewrite close_each_open;
    [cbn | exact Hnd | intros c Hin; apply (Hopen c Hin)].
  eexists. eexists. split; [reflexivity|]. cbn.
  split; [reflexivity|]. split; [reflexivity|].
  rewrite !released_app, released_map_ChanClose. cbn.
  rewrite !app_nil_r. reflexivity.
Qed.

(** On every exit of the loop [Serve] stops the timer and closes the
    machine and the digest watcher, and no other: the watcher of the
    discovered-machines subscription is left open. *)
Lemma Serve_exit_releases_two in_ (w : World S) w1 w2 w3 s3 ready :
  storage in_ = Some SharedStore ->
  established (store w) w1 w2 w3 s3 ->
  registry_open in_ w ->
  existsb breaks ready = true ->
  exists d,
    trace (snd (snd (Serve ready (in_, w)))) = trace w ++ d /\
    In TimerStop d /\ released d = [w1; w2] /\
    autoDiscObserver (fst (snd (Serve ready (in_, w)))) = Some w3.
Proof.
  intros Hst Hest Hreg Hbr.
  destruct (Serve_established loop_effect in_ w w1 w2 w3 s3
              (select_Continue in_) Hst Hest Hreg ready) as [n [d [Hd Hrun]]].
  cbn zeta in Hrun. rewrite Hbr in Hrun. rewrite Hrun. cbn [fst snd trace].
  eexists. split; [reflexivity|].
  destruct (loop_effects_close_nothing d Hd) as [_ Hrel].
  split.
  - apply in_or_app. right. apply in_or_app. right. left. reflexivity.
  - split; [|reflexivity].
    rewrite !released_app, Hrel, released_map_ChanClose. reflexivity.
Qed.

(** C4.  An ERROR event of the machine-kind stream, and one of the
    digest-kind stream, ends the loop in the iteration that receives
    it: the loop returns at once, whatever the environment would have
    supplied next.  An ERROR event of the discovered-by-name stream
    never ends it: the iteration has no effect and the loop goes on
    with what follows, and a loop fed nothing but such events has not
    returned. *)
Theorem C4_watch_error_fatal_except_discovered :
  forall (in_ : Server) (revalidate : bool) (w : World S)
         (event : WatchEvent) (errors : list WatchEvent)
         (rest : list Ready),
    Type_ event = ERROR ->
    Forall (fun e => Type_ e = ERROR) errors ->
    select in_ revalidate (OnMachine event) w = (Returned Break, w) /\
    LOOP in_ revalidate (OnMachine event :: rest) w = (Returned tt, w) /\
    select in_ revalidate (OnDigest event) w = (Returned Break, w) /\
    LOOP in_ revalidate (OnDigest event :: rest) w = (Returned tt, w) /\
    select in_ revalidate (OnAutoDisc event) w
      = (Returned (Continue revalidate), w) /\
    LOOP in_ revalidate (map OnAutoDisc errors ++ rest) w
      = LOOP in_ revalidate rest w /\
    LOOP in_ revalidate (map OnAutoDisc errors) w = (Pending, w).
Proof.
  intros in_ rv w event errors rest Hty Herrs.
  assert (Hm : breaks (OnMachine event) = true)
    by (cbn; rewrite Hty; reflexivity).
  assert (Hd : breaks (OnDigest event) = true)
    by (cbn; rewrite Hty; reflexivity).
  assert (Hskip : forall e, Type_ e = ERROR ->
            select in_ rv (OnAutoDisc e) w = (Returned (Continue rv), w))
    by (intros e He; cbn; rewrite He; reflexivity).
  assert (Hloop : forall tl,
            LOOP in_ rv (map OnAutoDisc errors ++ tl) w = LOOP in_ rv tl w).
  { intros tl. induction Herrs as [|e errors He _ IH]; [reflexivity|].
    cbn [map app LOOP]. unfold bind. rewrite (Hskip e He). exact IH. }
  repeat split.
  - apply select_Break, Hm.
  - cbn [LOOP]. unfold bind. rewrite (select_Break _ _ _ _ Hm). reflexivity.
  - apply select_Break, Hd.
  - cbn [LOOP]. unfold bind. rewrite (select_Break _ _ _ _ Hd). reflexivity.
  - apply Hskip, Hty.
  - apply Hloop.
  - rewrite <- (app_nil_r (map OnAutoDisc errors)), Hloop. reflexivity.
Qed.

(** C5.  On a timer expiry at which the schedule gives a next
    activation that is not the zero instant, the iteration rearms the
    timer with the time left until that activation (read off the clock
    a second time) and starts exactly two tasks, the digest creation
    and the discovery sweep; within the range of a duration the timer
    is due at the activation itself.  The loop goes on, with
    [revalidate] false. *)
Theorem C5_timer_expiry_dispatches_two_and_rearms :
  forall (in_ : Server) (revalidate : bool) (w : World S)
         (rest : list Ready),
    let now := clock w (nowCalls w) in
    let now' := clock w (Datatypes.S (nowCalls w)) in
    let next := sche in_ now in
    time.IsZero next = false ->
    let d := [TimerReset (time.Sub next now');
              Go GoCreateMachineDigestOnTime; Go GoAutoDiscoveryOnTime] in
    select in_ revalidate OnTimer w
      = (Returned (Continue false), later w 2 d) /\
    started d = [GoCreateMachineDigestOnTime; GoAutoDiscoveryOnTime] /\
    armed d = [time.Sub next now'] /\
    ((time.minDuration <= next - now' <= time.maxDuration)%Z ->
     (now' + time.Sub next now' = next)%Z) /\
    LOOP in_ revalidate (OnTimer :: rest) w
      = LOOP in_ false rest (later w 2 d).
Proof.
  intros in_ rv w rest now now' next Hnz d.
  assert (Hsel : select in_ rv OnTimer w
                 = (Returned (Continue false), later w 2 d)).
  { unfold select, bind, time_Now, emit, ret. cbn.
    fold now. fold next. rewrite Hnz. cbn.
    unfold later, d. cbn. rewrite <- !app_assoc. reflexivity. }
  split; [exact Hsel|]. split; [reflexivity|]. split; [reflexivity|].
  split.
  - intros [Hlo Hhi]. unfold time.Sub.
    apply Z.ltb_ge in Hlo. rewrite Hlo.
    destruct (time.maxDuration <? next - now')%Z eqn:E.
    + apply Z.ltb_lt in E. lia.
    + lia.
  - cbn [LOOP]. unfold bind. rewrite Hsel. reflexivity.
Qed.


(** C8.  On a server whose registry is open, subscribe any number of
    times and then serve: when the loop exits, [Serve] returns having
    closed each registered channel (the handles just returned after
    those registered before) exactly once, in registration order, and
    the registry is empty. *)
Theorem C8_subscribers_notified_once_in_order :
  forall (in0 : Server) (w0 : World S) (n : nat) (ready : list Ready)
         (w1 w2 w3 : Watcher) (s3 : S),
    registry_open in0 w0 ->
    storage in0 = Some SharedStore ->
    established (store w0) w1 w2 w3 s3 ->
    existsb breaks ready = true ->
    exists handles in_ w d,
      Subscribe_n n (in0, w0) = (Returned handles, (in_, w)) /\
      List.length handles = n /\
      fst (Serve ready (in_, w)) = Returned None /\
      trace (snd (snd (Serve ready (in_, w)))) = trace w ++ d /\
      closes d = clzSubCh in0 ++ handles /\
      NoDup (clzSubCh in0 ++ handles) /\
      closedChans (snd (snd (Serve ready (in_, w))))
        = closedChans w ++ clzSubCh in0 ++ handles /\
      clzSubCh (fst (snd (Serve ready (in_, w)))) = [].
Proof.
  intros in0 w0 n ready w1 w2 w3 s3 Hreg Hst Hest Hbr.
  destruct (Subscribe_n_registry n in0 w0 Hreg)
    as [hs [in_ [w [Hsub [Hlen [Hcs [Hst' [_ [Hstore [_ Hreg']]]]]]]]]].
  rewrite <- Hstore in Hest. rewrite <- Hst' in Hst.
  destruct (Serve_established loop_effect in_ w w1 w2 w3 s3
              (select_Continue in_) Hst Hest Hreg' ready) as [k [d [Hd Hrun]]].
  cbn zeta in Hrun. rewrite Hbr in Hrun.
  exists hs, in_, w. eexists.
  split; [exact Hsub|]. split; [exact Hlen|].
  rewrite Hrun. cbn [fst snd trace closedChans].
  split; [reflexivity|]. split; [reflexivity|].
  destruct (loop_effects_close_nothing d Hd) as [Hcl _].
  split; [|split; [|split]].
  - rewrite !closes_app, Hcl, closes_map_ChanClose, Hcs. reflexivity.
  - rewrite <- Hcs. apply Hreg'.
  - rewrite Hcs. reflexivity.
  - reflexivity.
Qed.

(** C9.  [Serve] returns nil both when the loop exits on the stop
    signal and when it exits on an ERROR event of the machine-kind or
    of the digest-kind stream. *)
Theorem C9_same_result_on_stop_and_on_fatal_error :
  forall (in_ : Server) (w : World S) (w1 w2 w3 : Watcher) (s3 : S)
         (pre rest : list Ready) (event : WatchEvent),
    storage in_ = Some SharedStore ->
    established (store w) w1 w2 w3 s3 ->
    registry_open in_ w ->
    Type_ event = ERROR ->
    fst (Serve (pre ++ OnClose :: rest) (in_, w)) = Returned None /\
    fst (Serve (pre ++ OnMachine event :: rest) (in_, w)) = Returned None /\
    fst (Serve (pre ++ OnDigest event :: rest) (in_, w)) = Returned None.
Proof.
  intros in_ w w1 w2 w3 s3 pre rest event Hst Hest Hreg Hty.
  assert (Hexit : forall x, breaks x = true ->
            fst (Serve (pre ++ x :: rest) (in_, w)) = Returned None).
  { intros x Hx.
    destruct (Serve_established loop_effect in_ w w1 w2 w3 s3
                (select_Continue in_) Hst Hest Hreg (pre ++ x :: rest))
      as [k [d [_ Hrun]]].
    cbn zeta in Hrun. rewrite (breaks_in_the_middle pre x rest Hx) in Hrun.
    rewrite Hrun. reflexivity. }
  repeat split; apply Hexit; cbn; rewrite ?Hty; reflexivity.
Qed.

End ServeClaims.

(* ===================================================================== *)
(** ** Runs on the concrete store *)

Section Runs.
#[local] Existing Instance demo.store.
#[local] Existing Instance demo.libs.

Lemma demo_registry_open next s :
  registry_open (demo.server next) (demo.world s).
Proof.
  unfold registry_open, chans_made. cbn.
  split; [constructor|]. split; [constructor|].
  split; intros c [].
Defined.

Lemma demo_established :
  established (store (demo.world demo.three_watchers)) 1 2 3
              (demo.mkScript [] [] []).
Proof.
  exists (demo.mkScript [] [] [(Some 2, None); (Some 3, None)]).
  exists (demo.mkScript [] [] [(Some 3, None)]).
  repeat split.
Defined.

(** C1.  A server with three established subscriptions is stopped: the
    loop exits, [Serve] stops the timer and closes watchers 1 and 2,
    and returns with watcher 3, the discovered-machines subscription,
    still in place and never closed. *)
Theorem C1_discovered_watcher_left_open :
  let run := Serve [OnClose]
               (demo.server demo.every_minute,
                demo.world demo.three_watchers) in
  fst run = Returned None /\
  In TimerStop (trace (snd (snd run))) /\
  autoDiscObserver (fst (snd run)) = Some 3 /\
  released (trace (snd (snd run))) = [1; 2] /\
  ~ In (WatcherClose 3) (trace (snd (snd run))).
Proof.
  vm_compute. repeat split.
  - do 4 right. left. reflexivity.
  - intros Hin.
    repeat (destruct Hin as [Hin|Hin]; [discriminate|]). exact Hin.
Qed.

(** C2.  The second subscription is refused: [Serve] returns that
    failure, and watcher 1, opened in the same attempt, stays in the
    server and is not closed. *)
Theorem C2_opened_watcher_leaked_on_failure :
  let run := Serve [OnClose]
               (demo.server demo.every_minute,
                demo.world demo.second_refused) in
  fst run = Returned (Some "watch: refused") /\
  machineObserver (fst (snd run)) = Some 1 /\
  released (trace (snd (snd run))) = [] /\
  ~ In (WatcherClose 1) (trace (snd (snd run))).
Proof.
  vm_compute. repeat split.
  intros Hin.
  repeat (destruct Hin as [Hin|Hin]; [discriminate|]). exact Hin.
Qed.



(** C10 on a pool of three executors and on the empty pool. *)
Lemma C10_witness :
  fst (refreshMachineSnapshotOnEvent {| executor := [7; 8; 9] |}
         (demo.event CREATE demo.m1) (demo.world demo.three_watchers))
    = Returned tt /\
  fst (refreshMachineSnapshotOnEvent {| executor := [] |}
         (demo.event CREATE demo.m1) (demo.world demo.three_watchers))
    = Panicked "invalid argument to Intn".
Proof.
  split.
  - destruct (C10_selection_needs_nonempty_pool
                {| executor := [7; 8; 9] |} (demo.event CREATE demo.m1)
                (demo.world demo.three_watchers))
      as [_ [_ [Hd _]]].
    destruct (Hd eq_refl) as [Hne _]. apply Hne. discriminate.
  - destruct (C10_selection_needs_nonempty_pool
                {| executor := [] |} (demo.event CREATE demo.m1)
                (demo.world demo.three_watchers))
      as [_ [_ [Hd _]]].
    destruct (Hd eq_refl) as [_ He]. apply He. reflexivity.
Defined.

(** C3 on a store whose update finds no record, whose first create
    collides and whose second create fails inside the store: one update,
    two creates, the error logged. *)
Lemma C3_witness :
  let run := autoDiscoveryOnTime 3 {| executor := [] |}
               (demo.world demo.troubled) in
  fst run = Returned tt /\
  trace (snd run)
  = [LogInfo "Auto-discovering new machines on preset zones...";
     StorageUpdate (SetState NewDiscoveredMachines StartedState);
     StorageCreate (SetState NewDiscoveredMachines StartedState);
     StorageCreate (SetState NewDiscoveredMachines StartedState);
     LogErrorf "Could not mark auto-discovery as `STARTED` state: %v"
               "internal";
     LogSync].
Proof.
  intros run.
  destruct (C3_discovery_update_then_create_until_settled
              {| executor := [] |} (demo.world demo.troubled)
              (Some "not found")
              (demo.mkScript [Some "exists"; Some "internal"] [] [])
              2 (Some "internal") (demo.mkScript [] [] []) 3)
    as [_ [_ [Hret [_ Htr]]]].
  - reflexivity.
  - eapply upsert_create; [reflexivity | reflexivity |].
    eapply upsert_create; [reflexivity | reflexivity |].
    apply upsert_abandon. reflexivity.
  - repeat constructor.
  - split; [exact Hret | exact Htr].
Defined.

(** C4 on a loop that receives an ERROR event of the discovered-by-name
    stream and then one of the machine-kind stream: it goes past the
    first and returns at the second, before the timer expiry that follows. *)
Lemma C4_witness :
  LOOP (demo.server demo.every_minute) false
    [OnAutoDisc (demo.event ERROR []); OnMachine (demo.event ERROR []);
     OnTimer]
    (demo.world demo.three_watchers)
  = (Returned tt, demo.world demo.three_watchers).
Proof.
  destruct (C4_watch_error_fatal_except_discovered
              (demo.server demo.every_minute) false
              (demo.world demo.three_watchers) (demo.event ERROR [])
              [demo.event ERROR []]
              [OnMachine (demo.event ERROR []); OnTimer]
              eq_refl
              (Forall_cons (P:=fun e => Type_ e = ERROR)
                 (demo.event ERROR []) eq_refl (Forall_nil _)))
    as [_ [Hm [_ [_ [_ [Hskip _]]]]]].
  destruct (C4_watch_error_fatal_except_discovered
              (demo.server demo.every_minute) false
              (demo.world demo.three_watchers) (demo.event ERROR [])
              [] [OnTimer] eq_refl (Forall_nil _))
    as [_ [Hm' _]].
  exact (eq_trans Hskip Hm').
Defined.

(** C5 on the every-minute schedule, one second after the query: the
    timer is rearmed with 59 seconds and the two periodic tasks start. *)
Lemma C5_witness :
  select (demo.server demo.every_minute) true OnTimer
    (demo.world demo.three_watchers)
  = (Returned (Continue false),
     later (demo.world demo.three_watchers) 2
       [TimerReset (59 * time.Second)%Z;
        Go GoCreateMachineDigestOnTime; Go GoAutoDiscoveryOnTime]).
Proof.
  exact (proj1 (C5_timer_expiry_dispatches_two_and_rearms
                  (demo.server demo.every_minute) true
                  (demo.world demo.three_watchers) [] eq_refl)).
Defined.


(** C8 with two subscribers: handles 1 and 2 are returned, and a served
    and stopped server has closed exactly these, in this order. *)
Lemma C8_witness :
  exists handles in_ w d,
    Subscribe_n 2 (demo.server demo.every_minute,
                   demo.world demo.three_watchers)
      = (Returned handles, (in_, w)) /\
    handles = [1; 2] /\
    trace (snd (snd (Serve [OnTimer; OnClose] (in_, w)))) = trace w ++ d /\
    closes d = handles /\
    clzSubCh (fst (snd (Serve [OnTimer; OnClose] (in_, w)))) = [].
Proof.
  destruct (C8_subscribers_notified_once_in_order
              (demo.server demo.every_minute)
              (demo.world demo.three_watchers) 2 [OnTimer; OnClose]
              1 2 3 (demo.mkScript [] [] [])
              (demo_registry_open _ _) eq_refl demo_established eq_refl)
    as [hs [in_ [w [d [Hsub [_ [_ [Htr [Hcl [_ [_ Hreg]]]]]]]]]]].
  exists hs, in_, w, d.
  split; [exact Hsub|].
  split; [injection Hsub as Hh _; symmetry; exact Hh|].
  split; [exact Htr|]. split; [exact Hcl | exact Hreg].
Defined.

(** C9 on a run stopped by the stop signal and on a run ended by an ERROR
    event of the machine-kind stream. *)
Lemma C9_witness :
  fst (Serve [OnTimer; OnClose]
         (demo.server demo.every_minute, demo.world demo.three_watchers))
    = Returned None /\
  fst (Serve [OnTimer; OnMachine (demo.event ERROR [])]
         (demo.server demo.every_minute, demo.world demo.three_watchers))
    = Returned None.
Proof.
  destruct (C9_same_result_on_stop_and_on_fatal_error
              (demo.server demo.every_minute)
              (demo.world demo.three_watchers) 1 2 3
              (demo.mkScript [] [] []) [OnTimer] [] (demo.event ERROR [])
              eq_refl demo_established (demo_registry_open _ _) eq_refl)
    as [Hstop [Hmachine _]].
  split; [exact Hstop | exact Hmachine].
Defined.

End Runs.

(* ===================================================================== *)
(** ** Further properties: the watch-event model and the handler *)

Section HandlerMore.
Context {S : Type} `{Storage S} `{Externals}.

(** The display name of an event type is "CREATE", "UPDATE", "DELETE" or
    "ERROR" exactly for the four tags, and "<invalid>" for every other
    byte value; the tags are distinct single bits, and a value that
    combines two of them is not a tag. *)
Theorem WatchEventType_String_names :
  forall t : WatchEventType,
    (WatchEventType_String t = "CREATE" <-> t = CREATE) /\
    (WatchEventType_String t = "UPDATE" <-> t = UPDATE) /\
    (WatchEventType_String t = "DELETE" <-> t = DELETE) /\
    (WatchEventType_String t = "ERROR" <-> t = ERROR) /\
    (WatchEventType_String t = "<invalid>" <->
     t <> CREATE /\ t <> UPDATE /\ t <> DELETE /\ t <> ERROR) /\
    (forall a b, In a [CREATE; UPDATE; DELETE; ERROR] ->
                 In b [CREATE; UPDATE; DELETE; ERROR] -> a <> b ->
                 Z.land a b = 0%Z /\
                 WatchEventType_String (Z.lor a b) = "<invalid>").
Proof.
  intros t.
  change CREATE with 1%Z. change UPDATE with 2%Z.
  change DELETE with 4%Z. change ERROR with 8%Z.
  unfold WatchEventType_String, WatchEventTypeName. cbn [lookup].
  split; [|split; [|split; [|split; [|split]]]].
  1-5: destruct (Z.eqb_spec t 1) as [->|E1]; cbn;
    [| destruct (Z.eqb_spec t 2) as [->|E2]; cbn;
       [| destruct (Z.eqb_spec t 4) as [->|E4]; cbn;
          [| destruct (Z.eqb_spec t 8) as [->|E8]; cbn]]];
    split; intros Hs; try discriminate; try reflexivity; try lia;
    try (repeat split; assumption);
    try (destruct Hs as [? [? [? ?]]]; congruence).
  intros a b Ha Hb Hab. cbn in Ha, Hb.
  repeat match goal with
         | Hin : _ \/ _ |- _ => destruct Hin as [<- | Hin]
         | Hin : False |- _ => destruct Hin
         end; try congruence; split; reflexivity.
Qed.

Lemma filter_app_storage d1 d2 :
  filter is_storage_call (d1 ++ d2)
  = filter is_storage_call d1 ++ filter is_storage_call d2.
Proof. apply filter_app. Qed.

(** The periodic digest creation always returns, whatever the store
    answers: it calls the store's create once, on a new digest, and never
    again; it logs the failure exactly when the create fails; and it
    notifies no executor. *)
Theorem createMachineDigestOnTime_one_create_no_retry :
  forall (in_ : Handler) (w : World S),
  exists d,
    fst (createMachineDigestOnTime in_ w) = Returned tt /\
    trace (snd (createMachineDigestOnTime in_ w)) = trace w ++ d /\
    store (snd (createMachineDigestOnTime in_ w))
      = snd (storage_Create NewMachineDigest (store w)) /\
    filter is_storage_call d = [StorageCreate NewMachineDigest] /\
    notified d = [] /\
    (forall e,
        In (LogErrorf "Could not create new machine digest due to: %v" e) d
        <-> fst (storage_Create NewMachineDigest (store w)) = Some e).
Proof.
  intros in_ w.
  unfold createMachineDigestOnTime, defer, bind, Create, with_store, emit,
    ret. cbn.
  destruct (storage_Create NewMachineDigest (store w)) as [[e|] s1]; cbn.
  - eexists. split; [reflexivity|].
    split; [rewrite <- !app_assoc; reflexivity|]. cbn.
    repeat split; try reflexivity.
    + intros [Hin|[Hin|[Hin|[Hin|[]]]]]; try discriminate.
      inversion Hin; reflexivity.
    + intros Heq. inversion Heq; subst. right. right. left. reflexivity.
  - eexists. split; [reflexivity|].
    split; [rewrite <- !app_assoc; reflexivity|]. cbn.
    repeat split; try reflexivity.
    + intros [Hin|[Hin|[Hin|[]]]]; discriminate.
    + discriminate.
Qed.

(** An event handler delivers at most once and touches nothing else:
    whatever the event and the pool, each of the two handlers notifies at
    most one executor, a member of the pool, makes no storage call and
    leaves the store as it was; and it panics only on an empty pool. *)
Theorem event_handlers_at_most_one_delivery :
  forall (in_ : Handler) (event : WatchEvent) (w : World S),
    (exists d,
       trace (snd (refreshMachineSnapshotOnEvent in_ event w)) = trace w ++ d /\
       (List.length (notified d) <= 1)%nat /\
       (forall x, In x (notified d) -> In (fst x) (executor in_)) /\
       filter is_storage_call d = [] /\
       store (snd (refreshMachineSnapshotOnEvent in_ event w)) = store w /\
       (fst (refreshMachineSnapshotOnEvent in_ event w) = Returned tt \/
        executor in_ = [])) /\
    (exists d,
       trace (snd (refreshDicoveredMachinesOnEvent in_ event w))
         = trace w ++ d /\
       (List.length (notified d) <= 1)%nat /\
       (forall x, In x (notified d) -> In (fst x) (executor in_)) /\
       filter is_storage_call d = [] /\
       store (snd (refreshDicoveredMachinesOnEvent in_ event w)) = store w /\
       (fst (refreshDicoveredMachinesOnEvent in_ event w) = Returned tt \/
        executor in_ = [])).
Proof.
  intros in_ event w. split.
  - destruct (fst (Unmarshal event NewMachineDigest)) as [e|] eqn:Hdec.
    + rewrite (refreshMachineSnapshotOnEvent_malformed in_ event w e Hdec).
      eexists. split; [reflexivity|]. cbn.
      repeat split; try reflexivity; try lia; try (intros x []).
      left. reflexivity.
    + destruct (executor in_) as [|x pool] eqn:Hpool.
      * rewrite (refreshMachineSnapshotOnEvent_empty in_ event w Hdec Hpool).
        eexists. split; [reflexivity|]. cbn.
        repeat split; try reflexivity; try lia; try (intros y []).
        right. reflexivity.
      * assert (Hne : executor in_ <> []) by (rewrite Hpool; discriminate).
        destruct (refreshMachineSnapshotOnEvent_decoded in_ event w Hdec Hne)
          as [exec [Hin ->]].
        eexists. split; [reflexivity|]. cbn.
        repeat split; try reflexivity; try lia.
        -- intros y [<-|[]]. rewrite Hpool in Hin. exact Hin.
        -- left. reflexivity.
  - destruct (fst (Unmarshal event NewDiscoveredMachines)) as [e|] eqn:Hdec.
    + rewrite (refreshDicoveredMachinesOnEvent_malformed in_ event w e Hdec).
      eexists. split; [reflexivity|]. cbn.
      repeat split; try reflexivity; try lia; try (intros x []).
      left. reflexivity.
    + destruct (executor in_) as [|x pool] eqn:Hpool.
      * rewrite (refreshDicoveredMachinesOnEvent_empty in_ event w Hdec Hpool).
        eexists. split; [reflexivity|]. cbn.
        repeat split; try reflexivity; try lia; try (intros y []).
        right. reflexivity.
      * assert (Hne : executor in_ <> []) by (rewrite Hpool; discriminate).
        destruct (refreshDicoveredMachinesOnEvent_decoded in_ event w Hdec Hne)
          as [exec [Hin ->]].
        eexists. split; [reflexivity|]. cbn.
        repeat split; try reflexivity; try lia.
        -- intros y [<-|[]]. rewrite Hpool in Hin. exact Hin.
        -- left. reflexivity.
Qed.

Lemma registered_from (execs : list Executor) :
  forall h, executor (fold_left RegisterExecutor execs h) = executor h ++ execs.
Proof.
  induction execs as [|x execs IH]; intros h; cbn.
  - symmetry. apply app_nil_r.
  - rewrite IH. cbn. rewrite <- app_assoc. reflexivity.
Qed.

(** Registration appends: after the registrations [execs] the pool is
    [execs], in that order, and a further registration keeps what is
    there.  Once an executor is registered, neither event handler panics,
    whatever the event: it returns, with or without a delivery. *)
Theorem registered_pool_never_panics :
  forall (execs : list Executor),
    executor (registered execs) = execs /\
    (forall exec, executor (RegisterExecutor (registered execs) exec)
                  = execs ++ [exec]) /\
    (execs <> [] ->
     forall (event : WatchEvent) (w : World S),
       fst (refreshMachineSnapshotOnEvent (registered execs) event w)
         = Returned tt /\
       fst (refreshDicoveredMachinesOnEvent (registered execs) event w)
         = Returned tt).
Proof.
  intros execs.
  assert (Hpool : executor (registered execs) = execs)
    by (unfold registered; rewrite registered_from; reflexivity).
  split; [exact Hpool|]. split.
  - intros exec. cbn. rewrite Hpool. reflexivity.
  - intros Hne event w.
    destruct (event_handlers_at_most_one_delivery (registered execs) event w)
      as [[d1 [_ [_ [_ [_ [_ H1]]]]]] [d2 [_ [_ [_ [_ [_ H2]]]]]]].
    rewrite Hpool in H1, H2.
    split; [destruct H1 as [H1|H1] | destruct H2 as [H2|H2]];
      try assumption; contradiction.
Qed.

(** The discovery action returns only once the upsert has settled: if it
    has returned, its update and the creates that followed ended on a
    success or on an internal error, within the retries it was given; it
    does not give up on a failure that is not internal. *)
Theorem autoDiscoveryOnTime_returns_only_settled :
  forall (fuel : nat) (in_ : Handler) (w w' : World S),
    autoDiscoveryOnTime fuel in_ w = (Returned tt, w') ->
    let latest := SetState NewDiscoveredMachines StartedState in
    exists k err',
      (k < fuel)%nat /\
      upsert latest (fst (storage_Update latest (store w)))
             (snd (storage_Update latest (store w))) k err' (store w') /\
      (err' = None \/ exists e, err' = Some e /\ IsInternalError e = true).
Proof.
  intros fuel in_ w w' Hrun latest.
  unfold autoDiscoveryOnTime, defer, bind, Update, with_store, emit in Hrun.
  cbn in Hrun. fold latest in Hrun.
  destruct (storage_Update latest (store w)) as [err0 s1]. cbn.
  match type of Hrun with
  | context [RETRY fuel latest err0 ?w0] =>
      destruct (RETRY fuel latest err0 w0) as [[[]| |] w1] eqn:Hretry;
      try discriminate
  end.
  apply RETRY_returns in Hretry. cbn in Hretry.
  destruct Hretry as [k [err' [Hk Hup]]].
  inversion Hrun; subst; cbn.
  exists k, err'. split; [exact Hk|]. split; [exact Hup|].
  eapply upsert_final; exact Hup.
Qed.

End HandlerMore.

(* ===================================================================== *)
(** ** Further properties: the loop *)

Section LoopMore.
Context {S : Type} `{Storage S} `{Externals}.

Lemma periodic_pairs_add k1 k2 :
  periodic_pairs (k1 + k2) = periodic_pairs k1 ++ periodic_pairs k2.
Proof. induction k1 as [|k1 IH]; cbn; [|rewrite IH]; reflexivity. Qed.

Lemma loop_effects_no_storage d :
  Forall (fun e => loop_effect e = true) d -> filter is_storage_call d = [].
Proof.
  induction 1 as [|e d He _ IH]; [reflexivity|].
  destruct e; cbn in *; try discriminate; exact IH.
Qed.

(** One iteration that does not break, in full: what it starts for the
    event, how often it arms the timer, and whether it starts the pair of
    periodic tasks. *)
Lemma select_precise in_ rv r (w : World S) :
  breaks r = false ->
  exists rv' n d k,
    select in_ rv r w = (Returned (Continue rv'), later w n d) /\
    filter (fun t => negb (is_periodic t)) (started d) = routed_one r /\
    List.length (armed d) = expiries [r] /\
    filter is_periodic (started d) = periodic_pairs k /\
    (k <= expiries [r])%nat /\
    ((forall t, time.IsZero (sche in_ t) = false) -> k = expiries [r]).
Proof.
  intros Hb. unfold expiries. rewrite Hb.
  destruct r as [|event|event|event|]; cbn in Hb; try discriminate.
  - exists rv, 0%nat, [], 0%nat. rewrite later_0_nil. cbn. rewrite Hb.
    clear Hb. repeat split; try reflexivity.
    destruct (Type_ event =? _)%Z; reflexivity.
  - cbn. rewrite Hb. clear Hb. destruct (Type_ event =? _)%Z.
    + exists rv, 0%nat, [Go (GoRefreshMachineSnapshotOnEvent event)], 0%nat.
      repeat split; reflexivity.
    + exists rv, 0%nat, [], 0%nat. rewrite later_0_nil.
      repeat split; reflexivity.
  - cbn. destruct ((Type_ event =? _)%Z || _).
    + exists rv, 0%nat, [Go (GoRefreshDicoveredMachinesOnEvent event)], 0%nat.
      repeat split; reflexivity.
    + exists rv, 0%nat, [], 0%nat. rewrite later_0_nil.
      repeat split; reflexivity.
  - unfold select, bind, time_Now, emit, ret. cbn.
    destruct (time.IsZero (sche in_ (clock w (nowCalls w)))) eqn:Hz; cbn.
    + exists true, 1%nat, [TimerReset time.Minute], 0%nat.
      repeat split; try reflexivity; try lia.
      intros Hnz. rewrite Hnz in Hz. discriminate.
    + eexists false, 2%nat, [TimerReset _; Go _; Go _], 1%nat.
      split; [unfold later; cbn; rewrite <- !app_assoc; reflexivity|].
      repeat split; try reflexivity; lia.
Qed.

Lemma LOOP_precise in_ :
  forall ready rv (w : World S),
  exists n d k,
    LOOP in_ rv ready w
    = (if existsb breaks ready then Returned tt else Pending, later w n d) /\
    filter (fun t => negb (is_periodic t)) (started d) = routed ready /\
    List.length (armed d) = expiries ready /\
    filter is_periodic (started d) = periodic_pairs k /\
    (k <= expiries ready)%nat /\
    ((forall t, time.IsZero (sche in_ t) = false) -> k = expiries ready).
Proof.
  induction ready as [|r ready IH]; intros rv w.
  - exists 0%nat, [], 0%nat. cbn. rewrite later_0_nil.
    repeat split; reflexivity.
  - cbn [LOOP existsb routed]. unfold bind.
    destruct (breaks r) eqn:Hb.
    + rewrite (select_Break _ _ _ _ Hb).
      exists 0%nat, [], 0%nat. cbn. rewrite Hb, later_0_nil.
      repeat split; reflexivity.
    + destruct (select_precise in_ rv r w Hb)
        as [rv' [n [d [k [-> [Hr [Ha [Hp [Hk Hall]]]]]]]]].
      destruct (IH rv' (later w n d))
        as [n' [d' [k' [-> [Hr' [Ha' [Hp' [Hk' Hall']]]]]]]].
      assert (Hexp : expiries (r :: ready)
                     = (expiries [r] + expiries ready)%nat).
      { cbn. rewrite Hb. destruct r; reflexivity. }
      exists (n' + n)%nat, (d ++ d'), (k + k')%nat.
      rewrite later_later. cbn [orb].
      split; [reflexivity|].
      rewrite started_app, armed_app, !filter_app, length_app,
        periodic_pairs_add, Hr, Hr', Ha, Ha', Hp, Hp', Hexp.
      repeat split; try reflexivity; try lia.
      intros Hnz. rewrite (Hall Hnz), (Hall' Hnz). reflexivity.
Qed.

(** The loop itself is safe and self-contained: it never panics and
    returns exactly when it receives an iteration that breaks; whatever
    follows that iteration is not looked at; it leaves the store, the
    channels and the random source alone; and all it does is reset the
    timer and start tasks: no storage call, no watcher or channel
    closed. *)
Theorem LOOP_safe_and_self_contained :
  forall (in_ : Server) (ready : list Ready) (revalidate : bool)
         (w : World S),
    (exists n d,
       LOOP in_ revalidate ready w
       = (if existsb breaks ready then Returned tt else Pending,
          later w n d) /\
       Forall (fun e => loop_effect e = true) d /\
       filter is_storage_call d = [] /\ closes d = [] /\ released d = []) /\
    (forall pre x rest,
        ready = pre ++ x :: rest -> breaks x = true ->
        LOOP in_ revalidate ready w = LOOP in_ revalidate (pre ++ [x]) w).
Proof.
  intros in_ ready rv w. split.
  - destruct (LOOP_run loop_effect in_ (select_Continue in_) ready rv w)
      as [n [d [Hrun Hd]]].
    exists n, d. split; [exact Hrun|]. split; [exact Hd|].
    split; [apply loop_effects_no_storage, Hd|].
    apply loop_effects_close_nothing, Hd.
  - intros pre x rest -> Hx. revert rv w.
    induction pre as [|r pre IH]; intros rv w; cbn [app LOOP]; unfold bind.
    + rewrite (select_Break _ _ _ _ Hx). reflexivity.
    + destruct (select in_ rv r w) as [[[|rv']| |] w1]; try reflexivity.
      apply IH.
Qed.

(** Events are routed one to one: over any run of the loop the event
    tasks started are, in order of receipt, one digest refresh for each
    CREATE event of the digest stream and one discovery refresh for each
    CREATE or UPDATE event of the discovered-by-name stream received
    before the loop breaks, each carrying its event, and nothing for any
    other event; in particular no event of the machine stream, and no
    event whose type combines several tags, starts anything. *)
Theorem LOOP_routes_events_one_to_one :
  forall (in_ : Server) (ready : list Ready) (revalidate : bool)
         (w : World S),
    (exists n d,
       snd (LOOP in_ revalidate ready w) = later w n d /\
       filter (fun t => negb (is_periodic t)) (started d) = routed ready) /\
    (forall event, routed_one (OnMachine event) = []) /\
    (forall event,
        Type_ event <> CREATE -> routed_one (OnDigest event) = []) /\
    (forall event,
        Type_ event <> CREATE -> Type_ event <> UPDATE ->
        routed_one (OnAutoDisc event) = []).
Proof.
  intros in_ ready rv w. split; [|split; [|split]].
  - destruct (LOOP_precise in_ ready rv w) as [n [d [k [Hrun [Hr _]]]]].
    exists n, d. rewrite Hrun. split; [reflexivity | exact Hr].
  - reflexivity.
  - intros event Hc. cbn.
    apply Z.eqb_neq in Hc. change CREATE with 1%Z in Hc. rewrite Hc.
    reflexivity.
  - intros event Hc Hu. cbn.
    apply Z.eqb_neq in Hc, Hu.
    change CREATE with 1%Z in Hc. change UPDATE with 2%Z in Hu.
    rewrite Hc, Hu. reflexivity.
Qed.

(** The timer is never left unarmed: over any run of the loop it is
    rearmed exactly once for each expiry received before the loop
    breaks.  The periodic tasks are only ever started as the pair digest
    creation, discovery sweep, at most one pair per expiry, and exactly
    one pair per expiry under a schedule that always has a next
    activation. *)
Theorem LOOP_rearms_once_per_expiry :
  forall (in_ : Server) (ready : list Ready) (revalidate : bool)
         (w : World S),
  exists n d k,
    snd (LOOP in_ revalidate ready w) = later w n d /\
    List.length (armed d) = expiries ready /\
    filter is_periodic (started d) = periodic_pairs k /\
    (k <= expiries ready)%nat /\
    ((forall t, time.IsZero (sche in_ t) = false) -> k = expiries ready).
Proof.
  intros in_ ready rv w.
  destruct (LOOP_precise in_ ready rv w)
    as [n [d [k [Hrun [_ [Ha [Hp [Hk Hall]]]]]]]].
  exists n, d, k. rewrite Hrun.
  split; [reflexivity|]. repeat split; assumption.
Qed.

End LoopMore.

(* ===================================================================== *)
(** ** Further properties: the life of a server *)

Section ServeMore.
Context {S : Type} `{Storage S} `{Externals}.

(** The body of [Serve], on every path: it leaves the registry, the stop
    channel and the channels of the world alone, and it panics only on a
    server without a store or on a watcher that is nil without an
    error. *)
Lemma Serve_body_frame ready in_ (w : World S) :
  exists r in' w' d,
    Serve_body ready (in_, w) = (r, (in', w')) /\
    clzSubCh in' = clzSubCh in_ /\ closeCh in' = closeCh in_ /\
    closedChans w' = closedChans w /\ nextChan w' = nextChan w /\
    trace w' = trace w ++ d /\ closes d = [] /\
    (forall msg, r = Panicked msg ->
       storage in_ = None \/
       exists obj mode s s', storage_Watch obj mode s = ((None, None), s')).
Proof.
  unfold Serve_body, bind, this, liftW, assign, storage_of, Watch,
    with_store, ret. cbn.
  destruct (storage in_) as [[]|] eqn:Hst; cbn.
  2:{ do 4 eexists. split; [reflexivity|]. cbn.
      repeat split; try reflexivity.
      - instantiate (1 := []). symmetry. apply app_nil_r.
      - reflexivity.
      - intros msg _. left. reflexivity. }
  destruct (storage_Watch NewMachine WatchOnKind (store w))
    as [[o1 [e1|]] s1] eqn:Hw1; cbn.
  { do 4 eexists. split; [reflexivity|]. cbn.
    repeat split; try reflexivity. discriminate. }
  rewrite Hst. cbn.
  destruct (storage_Watch NewMachineDigest WatchOnKind s1)
    as [[o2 [e2|]] s2] eqn:Hw2; cbn.
  { do 4 eexists. split; [reflexivity|]. cbn.
    repeat split; try reflexivity.
    - rewrite <- !app_assoc. reflexivity.
    - reflexivity.
    - discriminate. }
  rewrite Hst. cbn.
  destruct (storage_Watch NewDiscoveredMachines WatchOnName s2)
    as [[o3 [e3|]] s3] eqn:Hw3; cbn.
  { do 4 eexists. split; [reflexivity|]. cbn.
    repeat split; try reflexivity.
    - rewrite <- !app_assoc. reflexivity.
    - reflexivity.
    - discriminate. }
  destruct o1 as [x1|]; cbn.
  2:{ do 4 eexists. split; [reflexivity|]. cbn.
      repeat split; try reflexivity.
      - rewrite <- !app_assoc. reflexivity.
      - reflexivity.
      - intros msg _. right. do 4 eexists. exact Hw1. }
  destruct o2 as [x2|]; cbn.
  2:{ do 4 eexists. split; [reflexivity|]. cbn.
      repeat split; try reflexivity.
      - rewrite <- !app_assoc. reflexivity.
      - reflexivity.
      - intros msg _. right. do 4 eexists. exact Hw2. }
  destruct o3 as [x3|]; cbn.
  2:{ do 4 eexists. split; [reflexivity|]. cbn.
      repeat split; try reflexivity.
      - rewrite <- !app_assoc. reflexivity.
      - reflexivity.
      - intros msg _. right. do 4 eexists. exact Hw3. }
  unfold first_timer, bind, time_Now, emit, ret. cbn.
  destruct (time.IsZero (sche in_ (clock w (nowCalls w)))); cbn;
    match goal with
    | |- context [LOOP ?i ?rv ready ?w0] =>
        destruct (LOOP_run loop_effect i (select_Continue i) ready rv w0)
          as [n [d [Hrun Hd]]];
        rewrite Hrun; clear Hrun
    end;
    destruct (loop_effects_close_nothing d Hd) as [Hcl _];
    (destruct (existsb breaks ready); cbn;
     do 4 eexists; (split; [reflexivity|]); cbn;
     do 4 (split; [reflexivity|]);
     (split; [rewrite <- !app_assoc; reflexivity|]);
     (split; [rewrite !closes_app, Hcl; reflexivity | discriminate])).
Qed.

(** [Serve] always tells its subscribers, and only when it is over.  On
    a server whose registry is open, whatever the store, the events and
    the state of preparation: while [Serve] has not returned, no
    subscriber channel is closed and the registry is as it was; once it
    has returned or panicked, each registered channel has been closed
    exactly once, in registration order, the registry is empty, and the
    registry is open again, ready for new subscriptions. *)
Theorem Serve_every_exit_notifies :
  forall (ready : list Ready) (in_ : Server) (w : World S),
    registry_open in_ w ->
    exists d,
      trace (snd (snd (Serve ready (in_, w)))) = trace w ++ d /\
      (fst (Serve ready (in_, w)) = Pending ->
       closes d = [] /\
       clzSubCh (fst (snd (Serve ready (in_, w)))) = clzSubCh in_) /\
      (fst (Serve ready (in_, w)) <> Pending ->
       closes d = clzSubCh in_ /\
       clzSubCh (fst (snd (Serve ready (in_, w)))) = [] /\
       closedChans (snd (snd (Serve ready (in_, w))))
         = closedChans w ++ clzSubCh in_ /\
       registry_open (fst (snd (Serve ready (in_, w))))
                     (snd (snd (Serve ready (in_, w))))).
Proof.
  intros ready in_ w [Hnd [Hcl [Hmade Hopen]]].
  destruct (Serve_body_frame ready in_ w)
    as [r [in' [w' [d [Hbody [Hreg [Hcc [Hclosed [Hnext [Htr [Hd _]]]]]]]]]]].
  assert (Hdef : Serve_deferred (in', w')
                 = (Returned tt,
                    (set_clzSubCh [] in',
                     mkWorld (store w') (clock w') (nowCalls w') (randSeed w')
                       (randDraws w') (nextChan w')
                       (closedChans w' ++ clzSubCh in_)
                       (trace w' ++ map ChanClose (clzSubCh in_))))).
  { unfold Serve_deferred, bind, this, liftW, assign, ret. cbn.
    rewrite Hreg, close_each_open; [reflexivity | exact Hnd |].
    intros c Hin. rewrite Hclosed. apply (Hopen c Hin). }
  assert (Hfinal : registry_open (set_clzSubCh [] in')
                     (mkWorld (store w') (clock w') (nowCalls w')
                        (randSeed w') (randDraws w') (nextChan w')
                        (closedChans w' ++ clzSubCh in_)
                        (trace w' ++ map ChanClose (clzSubCh in_)))).
  { unfold registry_open, chans_made. cbn.
    split; [constructor|]. split; [rewrite Hcc, Hnext; exact Hcl|].
    split; [|intros c []].
    intros c Hin. rewrite Hnext. apply in_app_or in Hin.
    destruct Hin as [Hin|Hin].
    - apply Hmade. rewrite <- Hclosed. exact Hin.
    - apply (Hopen c Hin). }
  unfold Serve, defer. rewrite Hbody.
  destruct r as [a|msg|]; rewrite ?Hdef; cbn [fst snd trace].
  - exists (d ++ map ChanClose (clzSubCh in_)).
    split; [rewrite Htr, app_assoc; reflexivity|].
    split; [discriminate|]. intros _.
    rewrite closes_app, Hd, closes_map_ChanClose.
    split; [reflexivity|]. split; [reflexivity|].
    split; [cbn; rewrite Hclosed; reflexivity | exact Hfinal].
  - exists (d ++ map ChanClose (clzSubCh in_)).
    split; [rewrite Htr, app_assoc; reflexivity|].
    split; [discriminate|]. intros _.
    rewrite closes_app, Hd, closes_map_ChanClose.
    split; [reflexivity|]. split; [reflexivity|].
    split; [cbn; rewrite Hclosed; reflexivity | exact Hfinal].
  - exists d. split; [exact Htr|].
    split; [intros _; split; [exact Hd | exact Hreg]|].
    intros Hn. contradiction.
Qed.

(** [Serve] panics in two cases only: on a server that was never given a
    store, and on a store that answers a watch with neither a watcher nor
    an error.  On a server without a store it panics before any storage
    call, timer or task, and still closes every subscriber channel. *)
Theorem Serve_panics_only_unprepared_or_nil_watcher :
  forall (ready : list Ready) (in_ : Server) (w : World S),
    registry_open in_ w ->
    (forall msg,
        fst (Serve ready (in_, w)) = Panicked msg ->
        storage in_ = None \/
        exists obj mode s s', storage_Watch obj mode s = ((None, None), s')) /\
    (storage in_ = None ->
     fst (Serve ready (in_, w))
       = Panicked "invalid memory address or nil pointer dereference" /\
     trace (snd (snd (Serve ready (in_, w))))
       = trace w ++ map ChanClose (clzSubCh in_) /\
     store (snd (snd (Serve ready (in_, w)))) = store w).
Proof.
  intros ready in_ w Hreg. split.
  - intros msg Hp.
    destruct (Serve_body_frame ready in_ w)
      as [r [in' [w' [d [Hbody [Hr [Hcc [Hclosed [Hnext [Htr [Hd Hcause]]]]]]]]]]].
    destruct Hreg as [Hnd [Hcl [Hmade Hopen]]].
    unfold Serve, defer in Hp. rewrite Hbody in Hp.
    assert (Hdef : fst (Serve_deferred (in', w')) = Returned tt).
    { unfold Serve_deferred, bind, this, liftW, assign, ret. cbn.
      rewrite Hr, close_each_open; [reflexivity | exact Hnd |].
      intros c Hin. rewrite Hclosed. apply (Hopen c Hin). }
    destruct (Serve_deferred (in', w')) as [rd st]. cbn in Hdef. subst rd.
    destruct r as [a|msg'|]; cbn in Hp; try discriminate.
    apply (Hcause msg'). reflexivity.
  - intros Hst. destruct Hreg as [Hnd [Hcl [Hmade Hopen]]].
    unfold Serve, defer, Serve_body, Serve_deferred, bind, this, liftW,
      assign, storage_of, ret. cbn. rewrite Hst. cbn.
    rewrite close_each_open;
      [cbn | exact Hnd | intros c Hin; apply (Hopen c Hin)].
    repeat split.
Qed.

(** A subscription that cannot be established ends [Serve] at once: it
    returns the error of the first watch that fails, after closing the
    subscriber channels; the later watches are not attempted, no timer is
    created and no task is started. *)
Theorem Serve_returns_first_watch_failure :
  forall (ready : list Ready) (in_ : Server) (w : World S),
    storage in_ = Some SharedStore ->
    registry_open in_ w ->
    let notify := map ChanClose (clzSubCh in_) in
    let watch1 := StorageWatch NewMachine WatchOnKind in
    let watch2 := StorageWatch NewMachineDigest WatchOnKind in
    let watch3 := StorageWatch NewDiscoveredMachines WatchOnName in
    (forall o err s1,
        storage_Watch NewMachine WatchOnKind (store w) = ((o, Some err), s1) ->
        fst (Serve ready (in_, w)) = Returned (Some err) /\
        trace (snd (snd (Serve ready (in_, w)))) = trace w ++ watch1 :: notify) /\
    (forall o1 s1 o err s2,
        storage_Watch NewMachine WatchOnKind (store w) = ((o1, None), s1) ->
        storage_Watch NewMachineDigest WatchOnKind s1 = ((o, Some err), s2) ->
        fst (Serve ready (in_, w)) = Returned (Some err) /\
        trace (snd (snd (Serve ready (in_, w))))
          = trace w ++ watch1 :: watch2 :: notify) /\
    (forall o1 s1 o2 s2 o err s3,
        storage_Watch NewMachine WatchOnKind (store w) = ((o1, None), s1) ->
        storage_Watch NewMachineDigest WatchOnKind s1 = ((o2, None), s2) ->
        storage_Watch NewDiscoveredMachines WatchOnName s2
          = ((o, Some err), s3) ->
        fst (Serve ready (in_, w)) = Returned (Some err) /\
        trace (snd (snd (Serve ready (in_, w))))
          = trace w ++ watch1 :: watch2 :: watch3 :: notify).
Proof.
  intros ready in_ w Hst [Hnd [_ [_ Hopen]]] notify watch1 watch2 watch3.
  split; [|split].
  - intros o err s1 Hw1.
    unfold Serve, defer, Serve_body, Serve_deferred, bind, this, liftW,
      assign, storage_of, Watch, with_store, ret. cbn.
    rewrite Hst. cbn. rewrite Hw1. cbn.
    rewrite close_each_open;
      [cbn | exact Hnd | intros c Hin; apply (Hopen c Hin)].
    split; [reflexivity | rewrite <- !app_assoc; reflexivity].
  - intros o1 s1 o err s2 Hw1 Hw2.
    unfold Serve, defer, Serve_body, Serve_deferred, bind, this, liftW,
      assign, storage_of, Watch, with_store, ret. cbn.
    rewrite Hst. cbn. rewrite Hw1. cbn. rewrite Hst. cbn. rewrite Hw2. cbn.
    rewrite close_each_open;
      [cbn | exact Hnd | intros c Hin; apply (Hopen c Hin)].
    split; [reflexivity | rewrite <- !app_assoc; reflexivity].
  - intros o1 s1 o2 s2 o err s3 Hw1 Hw2 Hw3.
    unfold Serve, defer, Serve_body, Serve_deferred, bind, this, liftW,
      assign, storage_of, Watch, with_store, ret. cbn.
    rewrite Hst. cbn. rewrite Hw1. cbn. rewrite Hst. cbn. rewrite Hw2. cbn.
    rewrite Hst. cbn. rewrite Hw3. cbn.
    rewrite close_each_open;
      [cbn | exact Hnd | intros c Hin; apply (Hopen c Hin)].
    split; [reflexivity | rewrite <- !app_assoc; reflexivity].
Qed.

(** Construction.  [NewServer] fails exactly when the schedule does not
    parse: it then returns the parse error and no server, and has made
    no channel.  Otherwise it returns a server on the parsed schedule
    with a stop channel of its own, no subscriber and no store.  Served
    as it is, that server panics; once prepared, and on a store that
    establishes the three subscriptions, it serves until the loop
    breaks and returns nil. *)
Theorem NewServer_Prepare_Serve :
  forall (exp : string) (w : World S),
    chans_made w ->
    (forall err, cron_Parse exp = inr err ->
                 NewServer exp w = (Returned (None, Some err), w)) /\
    (forall next, cron_Parse exp = inl next ->
       exists in_ w',
         NewServer exp w = (Returned (Some in_, None), w') /\
         sche in_ = next /\ clzSubCh in_ = [] /\ storage in_ = None /\
         closeCh in_ = nextChan w /\ ~ In (closeCh in_) (closedChans w') /\
         trace w' = trace w /\ store w' = store w /\
         registry_open in_ w' /\
         (forall ready,
             fst (Serve ready (in_, w'))
             = Panicked "invalid memory address or nil pointer dereference") /\
         (forall w1 w2 w3 s3 ready,
             established (store w) w1 w2 w3 s3 ->
             fst (Serve ready (Prepare in_, w'))
             = if existsb breaks ready then Returned None else Pending)).
Proof.
  intros exp w Hmade. split.
  - intros err Hp. unfold NewServer. rewrite Hp. reflexivity.
  - intros next Hp.
    assert (Hnew : NewServer exp w
                   = (Returned
                        (Some (mkServer (nextChan w) [] next None None None
                                 None None), None),
                      mkWorld (store w) (clock w) (nowCalls w) (randSeed w)
                        (randDraws w) (Datatypes.S (nextChan w))
                        (closedChans w) (trace w)))
      by (unfold NewServer; rewrite Hp; reflexivity).
    destruct (NewServer_registry exp w _ _ Hmade Hnew) as [_ Hreg].
    eexists. eexists. split; [exact Hnew|]. cbn.
    repeat (split; [reflexivity|]).
    split.
    { intros Hin. specialize (Hmade _ Hin). lia. }
    repeat (split; [reflexivity|]).
    split; [exact Hreg|]. split.
    + intros ready.
      apply (Serve_panics_only_unprepared_or_nil_watcher ready _ _ Hreg).
      reflexivity.
    + intros w1 w2 w3 s3 ready Hest.
      match goal with
      | |- fst (Serve ready (Prepare ?i, ?w')) = _ =>
          destruct (Serve_established loop_effect (Prepare i) w' w1 w2 w3 s3
                      (select_Continue (Prepare i)) eq_refl Hest
                      (Prepare_registry i w' Hreg) ready)
            as [n [d [_ Hrun]]]
      end.
      cbn zeta in Hrun. rewrite Hrun.
      destruct (existsb breaks ready); reflexivity.
Qed.

(** [Stop] is for one use.  On a server whose stop channel is open it
    returns, having closed that channel and no other: no subscriber is
    notified by it, and the registry stays open.  A second [Stop]
    panics. *)
Theorem Stop_single_use :
  forall (in_ : Server) (w : World S),
    registry_open in_ w ->
    ~ In (closeCh in_) (closedChans w) ->
    exists w',
      Stop (in_, w) = (Returned tt, (in_, w')) /\
      trace w' = trace w ++ [ChanClose (closeCh in_)] /\
      closedChans w' = closedChans w ++ [closeCh in_] /\
      registry_open in_ w' /\
      (forall c, In c (clzSubCh in_) -> ~ In c (closedChans w')) /\
      fst (Stop (in_, w')) = Panicked "close of closed channel".
Proof.
  intros in_ w [Hnd [Hcl [Hmade Hopen]]] Hfresh.
  unfold Stop, bind, this, liftW, close_chan. cbn.
  rewrite (not_closed _ _ Hfresh).
  eexists. split; [reflexivity|]. cbn.
  split; [reflexivity|]. split; [reflexivity|].
  assert (Hsub : forall c, In c (clzSubCh in_) ->
                           ~ In c (closedChans w ++ [closeCh in_])).
  { intros c Hin Hc. destruct (Hopen c Hin) as [_ [Hn Hne]].
    apply in_app_or in Hc. destruct Hc as [Hc|[Hc|[]]];
      [contradiction | congruence]. }
  split; [|split; [exact Hsub|]].
  - unfold registry_open, chans_made. cbn.
    split; [exact Hnd|]. split; [exact Hcl|]. split.
    + intros c Hc. apply in_app_or in Hc. destruct Hc as [Hc|[<-|[]]];
        [apply Hmade, Hc | exact Hcl].
    + intros c Hin. destruct (Hopen c Hin) as [Hlt [_ Hne]].
      split; [exact Hlt|]. split; [apply Hsub, Hin | exact Hne].
  - assert (Hclosed : existsb (Nat.eqb (closeCh in_))
                        (closedChans w ++ [closeCh in_]) = true).
    { apply existsb_exists. exists (closeCh in_).
      split; [apply in_or_app; right; left; reflexivity|].
      apply Nat.eqb_refl. }
    rewrite Hclosed. reflexivity.
Qed.

Lemma NoDup_app_disjoint (l1 l2 : list Chan) c :
  NoDup (l1 ++ l2) -> In c l1 -> In c l2 -> False.
Proof.
  induction l1 as [|x l1 IH]; cbn; intros Hnd Hin1 Hin2; [contradiction|].
  inversion Hnd as [|? ? Hx Hnd']; subst.
  destruct Hin1 as [->|Hin1].
  - apply Hx, in_or_app. right. exact Hin2.
  - exact (IH Hnd' Hin1 Hin2).
Qed.

Lemma Subscribe_n_frame n :
  forall in0 (w0 : World S) hs in_ w,
    Subscribe_n n (in0, w0) = (Returned hs, (in_, w)) ->
    closeCh in_ = closeCh in0 /\ closedChans w = closedChans w0.
Proof.
  induction n as [|n IH]; intros in0 w0 hs in_ w Hsub; cbn in Hsub.
  - inversion Hsub. split; reflexivity.
  - unfold bind at 1 in Hsub. cbn in Hsub.
    unfold bind in Hsub.
    match type of Hsub with
    | context [Subscribe_n n ?st] =>
        destruct (Subscribe_n n st) as [[hs'| |] [in1 w1]] eqn:E;
        try discriminate
    end.
    inversion Hsub; subst. apply IH in E. exact E.
Qed.

(** Every call of [Subscribe] returns a channel of its own: the handles
    of [n] successive calls are pairwise distinct, none was registered
    before, none is the stop channel, and all are open; subscribing
    makes no call on the store and has no other effect. *)
Theorem Subscribe_handles_fresh_and_distinct :
  forall (n : nat) (in0 : Server) (w0 : World S),
    registry_open in0 w0 ->
    exists handles in_ w,
      Subscribe_n n (in0, w0) = (Returned handles, (in_, w)) /\
      List.length handles = n /\ NoDup handles /\
      clzSubCh in_ = clzSubCh in0 ++ handles /\
      (forall c, In c handles ->
                 ~ In c (clzSubCh in0) /\ c <> closeCh in0 /\
                 ~ In c (closedChans w)) /\
      trace w = trace w0 /\ store w = store w0 /\
      registry_open in_ w.
Proof.
  intros n in0 w0 Hreg.
  destruct (Subscribe_n_registry n in0 w0 Hreg)
    as [hs [in_ [w [Hsub [Hlen [Hcs [_ [_ [Hstore [Htr Hreg']]]]]]]]]].
  exists hs, in_, w.
  split; [exact Hsub|]. split; [exact Hlen|].
  destruct Hreg' as [Hnd [Hcl [Hmade Hopen]]].
  rewrite Hcs in Hnd.
  destruct (Subscribe_n_frame n _ _ _ _ _ Hsub) as [Hcc _].
  split; [exact (NoDup_app_remove_l _ _ Hnd)|].
  split; [exact Hcs|]. split.
  - intros c Hin.
    assert (Hin' : In c (clzSubCh in_))
      by (rewrite Hcs; apply in_or_app; right; exact Hin).
    destruct (Hopen c Hin') as [_ [Hn Hne]].
    split; [|split; [rewrite <- Hcc; exact Hne | exact Hn]].
    intros Hold. exact (NoDup_app_disjoint _ _ c Hnd Hold Hin).
  - split; [exact Htr|]. split; [exact Hstore|].
    split; [rewrite Hcs; exact Hnd|]. split; [exact Hcl|].
    split; [exact Hmade | exact Hopen].
Qed.

(** No handle is notified twice.  When a [Serve] is over, subscribe
    again and serve again: the second [Serve], once it is over, closes
    exactly the new handles, in order, and none of the channels the first
    one closed. *)
Theorem Serve_again_notifies_only_new_handles :
  forall (ready1 ready2 : list Ready) (n : nat) (in_ : Server) (w : World S),
    registry_open in_ w ->
    fst (Serve ready1 (in_, w)) <> Pending ->
    exists handles st d,
      Subscribe_n n (snd (Serve ready1 (in_, w))) = (Returned handles, st) /\
      trace (snd (snd (Serve ready2 st))) = trace (snd st) ++ d /\
      (fst (Serve ready2 st) <> Pending ->
       closes d = handles /\
       forall c, In c (clzSubCh in_) -> ~ In c (closes d)).
Proof.
  intros ready1 ready2 n in_ w Hreg Hover.
  destruct (Serve_every_exit_notifies ready1 in_ w Hreg)
    as [d1 [_ [_ Hdone]]].
  destruct (Hdone Hover) as [_ [Hempty [Hclosed1 Hreg1]]].
  destruct (Serve ready1 (in_, w)) as [r1 [in1 w1]]. cbn [fst snd] in *.
  destruct (Subscribe_handles_fresh_and_distinct n in1 w1 Hreg1)
    as [hs [in2 [w2 [Hsub [_ [_ [Hcs [Hfresh [_ [_ Hreg2]]]]]]]]]].
  destruct (Subscribe_n_frame n _ _ _ _ _ Hsub) as [_ Hclosed2].
  destruct (Serve_every_exit_notifies ready2 in2 w2 Hreg2)
    as [d2 [Htr2 [_ Hdone2]]].
  exists hs, (in2, w2), d2.
  split; [exact Hsub|]. split; [exact Htr2|].
  intros Hover2. destruct (Hdone2 Hover2) as [Hcl2 _].
  rewrite Hcs, Hempty in Hcl2. cbn in Hcl2.
  split; [exact Hcl2|].
  intros c Hold Hnew. rewrite Hcl2 in Hnew.
  destruct (Hfresh c Hnew) as [_ [_ Hopen]].
  apply Hopen. rewrite Hclosed2, Hclosed1.
  apply in_or_app. right. exact Hold.
Qed.

End ServeMore.

(* ===================================================================== *)
(** ** Further runs on the concrete store *)

Section MoreRuns.
#[local] Existing Instance demo.store.
#[local] Existing Instance demo.libs.

Lemma demo_chans_made s : chans_made (demo.world s).
Proof. intros c []. Defined.

Lemma demo_subscribed_open next s :
  registry_open (demo.subscribed next) (demo.world3 s).
Proof.
  unfold registry_open, chans_made. cbn.
  split; [repeat constructor; cbn; intros Hin;
          repeat (destruct Hin as [Hin|Hin]; [discriminate|]); exact Hin|].
  split; [repeat constructor|]. split; [intros c []|].
  intros c [<-|[<-|[]]]; (split; [repeat constructor|]);
    (split; [intros [] | discriminate]).
Defined.

Lemma demo_unprepared_open next s :
  registry_open (demo.unprepared next) (demo.world3 s).
Proof. exact (demo_subscribed_open next s). Defined.

(** Two registrations, then an event that does not decode and one that
    does: both handlers return. *)
Lemma registered_pool_never_panics_witness :
  executor (registered [7; 8]) = [7; 8] /\
  fst (refreshMachineSnapshotOnEvent (registered [7; 8])
         (demo.event CREATE []) (demo.world demo.three_watchers))
    = Returned tt /\
  fst (refreshDicoveredMachinesOnEvent (registered [7; 8])
         (demo.event UPDATE demo.m1) (demo.world demo.three_watchers))
    = Returned tt.
Proof.
  destruct (registered_pool_never_panics (S:=demo.Script) [7; 8])
    as [Hpool [_ Hsafe]].
  split; [exact Hpool|].
  split.
  - exact (proj1 (Hsafe ltac:(discriminate) (demo.event CREATE [])
                    (demo.world demo.three_watchers))).
  - exact (proj2 (Hsafe ltac:(discriminate) (demo.event UPDATE demo.m1)
                    (demo.world demo.three_watchers))).
Defined.

(** The discovery action on the troubled store, with three retries: it
    has returned, so it has settled, here on an internal error. *)
Lemma autoDiscoveryOnTime_returns_only_settled_witness :
  exists k err',
    (k < 3)%nat /\
    (err' = None \/ exists e, err' = Some e /\ IsInternalError e = true).
Proof.
  assert (Hrun : autoDiscoveryOnTime 3 {| executor := [] |}
                   (demo.world demo.troubled)
                 = (Returned tt,
                    snd (autoDiscoveryOnTime 3 {| executor := [] |}
                           (demo.world demo.troubled))))
    by reflexivity.
  destruct (autoDiscoveryOnTime_returns_only_settled _ _ _ _ Hrun)
    as [k [err' [Hk [_ Hfinal]]]].
  exists k, err'. split; [exact Hk | exact Hfinal].
Defined.

(** The discovery action on the store that answers every call with
    "exists": after fifty retries it has not returned. *)
Lemma autoDiscoveryOnTime_spins_witness :
  fst (autoDiscoveryOnTime (H:=demo.stubborn "exists") 50
         {| executor := [] |} demo.stubborn_world) = Pending.
Proof.
  apply (autoDiscoveryOnTime_spins (H:=demo.stubborn "exists")
           (fun _ => True) {| executor := [] |})
    with (e := "exists") (s1 := 1%nat).
  - intros s _. exists "exists", (Datatypes.S s). repeat split.
  - reflexivity.
  - reflexivity.
  - exact I.
Defined.

(** A served and stopped server with subscribers 1 and 2. *)
Lemma Serve_every_exit_notifies_witness :
  exists d,
    trace (snd (snd (Serve [OnTimer; OnClose]
                       (demo.subscribed demo.every_minute,
                        demo.world3 demo.three_watchers))))
      = d /\
    closes d = [1; 2].
Proof.
  destruct (Serve_every_exit_notifies [OnTimer; OnClose]
              (demo.subscribed demo.every_minute)
              (demo.world3 demo.three_watchers)
              (demo_subscribed_open _ _))
    as [d [Htr [_ Hdone]]].
  destruct (Hdone ltac:(vm_compute; discriminate)) as [Hcl _].
  exists d. split; [exact Htr | exact Hcl].
Defined.

(** A server that was never prepared, with subscribers 1 and 2. *)
Lemma Serve_panics_only_unprepared_or_nil_watcher_witness :
  fst (Serve [OnClose]
         (demo.unprepared demo.every_minute, demo.world3 demo.three_watchers))
    = Panicked "invalid memory address or nil pointer dereference" /\
  trace (snd (snd (Serve [OnClose]
                     (demo.unprepared demo.every_minute,
                      demo.world3 demo.three_watchers))))
    = [ChanClose 1; ChanClose 2].
Proof.
  destruct (Serve_panics_only_unprepared_or_nil_watcher [OnClose]
              (demo.unprepared demo.every_minute)
              (demo.world3 demo.three_watchers)
              (demo_unprepared_open _ _))
    as [_ Hnil].
  destruct (Hnil eq_refl) as [Hp [Htr _]].
  split; [exact Hp | exact Htr].
Defined.

(** The second subscription is refused, with subscribers 1 and 2. *)
Lemma Serve_returns_first_watch_failure_witness :
  fst (Serve [OnTimer; OnClose]
         (demo.subscribed demo.every_minute, demo.world3 demo.second_refused))
    = Returned (Some "watch: refused") /\
  trace (snd (snd (Serve [OnTimer; OnClose]
                     (demo.subscribed demo.every_minute,
                      demo.world3 demo.second_refused))))
    = [StorageWatch NewMachine WatchOnKind;
       StorageWatch NewMachineDigest WatchOnKind;
       ChanClose 1; ChanClose 2].
Proof.
  destruct (Serve_returns_first_watch_failure [OnTimer; OnClose]
              (demo.subscribed demo.every_minute)
              (demo.world3 demo.second_refused)
              eq_refl (demo_subscribed_open _ _))
    as [_ [Hsecond _]].
  exact (Hsecond (Some 1)
           (demo.mkScript [] [] [(None, Some "watch: refused")])
           None "watch: refused" (demo.mkScript [] [] [])
           eq_refl eq_refl).
Defined.

(** A schedule that parses: the server is made, panics unprepared, and
    serves once prepared. *)
Lemma NewServer_Prepare_Serve_witness :
  exists in_ w',
    NewServer "@every 1m" (demo.world demo.three_watchers)
      = (Returned (Some in_, None), w') /\
    fst (Serve [OnClose] (in_, w'))
      = Panicked "invalid memory address or nil pointer dereference" /\
    fst (Serve [OnClose] (Prepare in_, w')) = Returned None.
Proof.
  destruct (NewServer_Prepare_Serve "@every 1m"
              (demo.world demo.three_watchers) (demo_chans_made _))
    as [_ Hok].
  destruct (Hok _ eq_refl)
    as [in_ [w' [Hnew [_ [_ [_ [_ [_ [_ [_ [_ [Hraw Hprep]]]]]]]]]]]].
  exists in_, w'. split; [exact Hnew|]. split; [apply Hraw|].
  exact (Hprep 1 2 3 (demo.mkScript [] [] []) [OnClose] demo_established).
Defined.

(** Stopping the server with subscribers 1 and 2, twice. *)
Lemma Stop_single_use_witness :
  exists w',
    Stop (demo.subscribed demo.every_minute, demo.world3 demo.three_watchers)
      = (Returned tt, (demo.subscribed demo.every_minute, w')) /\
    closedChans w' = [0] /\
    fst (Stop (demo.subscribed demo.every_minute, w'))
      = Panicked "close of closed channel".
Proof.
  destruct (Stop_single_use (demo.subscribed demo.every_minute)
              (demo.world3 demo.three_watchers)
              (demo_subscribed_open _ _) (fun Hin : False => Hin))
    as [w' [Hstop [_ [Hcl [_ [_ Hagain]]]]]].
  exists w'. split; [exact Hstop|]. split; [exact Hcl | exact Hagain].
Defined.

(** Three more subscriptions on the server with subscribers 1 and 2. *)
Lemma Subscribe_handles_fresh_and_distinct_witness :
  exists handles in_ w,
    Subscribe_n 3 (demo.subscribed demo.every_minute,
                   demo.world3 demo.three_watchers)
      = (Returned handles, (in_, w)) /\
    handles = [3; 4; 5] /\ NoDup handles /\
    clzSubCh in_ = [1; 2] ++ handles.
Proof.
  destruct (Subscribe_handles_fresh_and_distinct 3
              (demo.subscribed demo.every_minute)
              (demo.world3 demo.three_watchers)
              (demo_subscribed_open _ _))
    as [hs [in_ [w [Hsub [_ [Hnd [Hcs _]]]]]]].
  exists hs, in_, w. split; [exact Hsub|].
  split; [injection Hsub as Hh _; symmetry; exact Hh|].
  split; [exact Hnd | exact Hcs].
Defined.

(** Serve and stop with subscribers 1 and 2, subscribe twice more, serve
    and stop again: the second run closes the two new handles only. *)
Lemma Serve_again_notifies_only_new_handles_witness :
  exists handles st d,
    Subscribe_n 2
      (snd (Serve [OnClose]
              (demo.subscribed demo.every_minute,
               demo.world3 (demo.mkScript [] []
                              [(Some 1, None); (Some 2, None); (Some 3, None);
                               (Some 4, None); (Some 5, None);
                               (Some 6, None)]))))
      = (Returned handles, st) /\
    handles = [3; 4] /\
    trace (snd (snd (Serve [OnClose] st))) = trace (snd st) ++ d /\
    closes d = handles.
Proof.
  assert (Hover : fst (Serve [OnClose]
                         (demo.subscribed demo.every_minute,
                          demo.world3
                            (demo.mkScript [] []
                               [(Some 1, None); (Some 2, None);
                                (Some 3, None); (Some 4, None);
                                (Some 5, None); (Some 6, None)])))
                  <> Pending) by (vm_compute; discriminate).
  destruct (Serve_again_notifies_only_new_handles [OnClose] [OnClose] 2
              (demo.subscribed demo.every_minute)
              (demo.world3 (demo.mkScript [] []
                              [(Some 1, None); (Some 2, None); (Some 3, None);
                               (Some 4, None); (Some 5, None);
                               (Some 6, None)]))
              (demo_subscribed_open _ _) Hover)
    as [hs [st [d [Hsub [Htr Hdone]]]]].
  exists hs, st, d. split; [exact Hsub|].
  assert (Hfst : fst (Subscribe_n 2
                        (snd (Serve [OnClose]
                                (demo.subscribed demo.every_minute,
                                 demo.world3
                                   (demo.mkScript [] []
                                      [(Some 1, None); (Some 2, None);
                                       (Some 3, None); (Some 4, None);
                                       (Some 5, None); (Some 6, None)])))))
                 = Returned hs) by (rewrite Hsub; reflexivity).
  assert (Hsnd : st = snd (Subscribe_n 2
                        (snd (Serve [OnClose]
                                (demo.subscribed demo.every_minute,
                                 demo.world3
                                   (demo.mkScript [] []
                                      [(Some 1, None); (Some 2, None);
                                       (Some 3, None); (Some 4, None);
                                       (Some 5, None); (Some 6, None)]))))))
    by (rewrite Hsub; reflexivity).
  vm_compute in Hfst. injection Hfst as Hhs.
  split; [symmetry; exact Hhs|]. split; [exact Htr|].
  apply Hdone. rewrite Hsnd. vm_compute. discriminate.
Defined.

End MoreRuns.
